(** * ez-thanos-operator: the reconcilers of [operator/operator.go]

    A shallow embedding of the two reconcilers of the operator
    ([reconcileMetricsCluster], [reconcileDeployment] with
    [reconcilePrometheusDeployment]), of the manifest builders and naming
    functions they call, and of the memoising resolver
    [findPrometheusTarURL].

    The orchestration API is an in-memory object store with a log of the
    calls issued against it and a table of injected transient failures.  Go
    maps are reference values: the pod-template label map of a deployment
    held in memory is a reference into a heap of maps, so that the struct
    copy at operator.go:266 shares the map with the desired manifest exactly
    as the Go code does. *)

From Stdlib Require Import ZArith.
From Stdlib.Strings Require Import Byte Ascii.
From stdpp Require Import base option list strings pretty gmap fin_maps.

Local Open Scope Z_scope.


(** ** Kubernetes objects, as far as the operator fills them in *)

(** A Go [map[string]string]; a nil map and an empty map are both [∅], which is
    also how [equality.Semantic.DeepEqual] compares them. *)
Abbreviation StrMap := (gmap string string).

(** [types.NamespacedName]: namespace first, name second. *)
Abbreviation NamespacedName := (string * string)%type.

Definition nnNamespace (n : NamespacedName) : string := fst n.
Definition nnName (n : NamespacedName) : string := snd n.

(** [metav1.Time], an instant in seconds; [0] is the zero value. *)
Abbreviation Time := Z.

(** A parsed [resource.Quantity], in canonical form. *)
Abbreviation Quantity := string.

Record ContainerPort := {
  cpName : string;
  cpProtocol : string;
  cpContainerPort : Z
}.

Record VolumeMount := {
  vmName : string;
  vmMountPath : string
}.

(** [corev1.Probe] with an [HTTPGet] handler. *)
Record Probe := {
  prTimeoutSeconds : Z;
  prPeriodSeconds : Z;
  prSuccessThreshold : Z;
  prFailureThreshold : Z;
  prPath : string;
  prPort : Z;
  prScheme : string
}.

Record Container := {
  ctName : string;
  ctImage : string;
  ctCommand : list string;
  ctWorkingDir : string;
  ctEnv : list (string * string);
  ctPorts : list ContainerPort;
  ctVolumeMounts : list VolumeMount;
  ctRequests : gmap string Quantity;
  ctReadinessProbe : option Probe
}.

(** [corev1.PodSpec]; every volume of the operator is an [EmptyDir] volume,
    recorded by its name. *)
Record PodSpec := {
  psShareProcessNamespace : option bool;
  psVolumes : list string;
  psInitContainers : list Container;
  psContainers : list Container
}.

(** The pod template, the deployment spec and the deployment are parametric
    in the representation [L] of the pod-template label map: a [MapRef] for
    an object held in the operator's memory, a [StrMap] for an object as the
    API stores it. *)
Record PodTemplateSpec (L : Type) := {
  tLabels : L;
  tAnnotations : StrMap;
  tSpec : PodSpec
}.
Arguments tLabels {L} _.
Arguments tAnnotations {L} _.
Arguments tSpec {L} _.

Record DeploymentSpec (L : Type) := {
  dsReplicas : option Z;
  dsSelector : StrMap;
  dsTemplate : PodTemplateSpec L
}.
Arguments dsReplicas {L} _.
Arguments dsSelector {L} _.
Arguments dsTemplate {L} _.

Record Deployment (L : Type) := {
  dNamespace : string;
  dName : string;
  dLabels : StrMap;
  dAnnotations : StrMap;
  dSpec : DeploymentSpec L
}.
Arguments dNamespace {L} _.
Arguments dName {L} _.
Arguments dLabels {L} _.
Arguments dAnnotations {L} _.
Arguments dSpec {L} _.

Record ServicePort := {
  spName : string;
  spPort : Z;
  spProtocol : string
}.

Record Service := {
  sNamespace : string;
  sName : string;
  sClusterIP : string;
  sPorts : list ServicePort;
  sSelector : StrMap
}.

Record Route := {
  rNamespace : string;
  rName : string;
  rToKind : string;
  rToName : string;
  rTargetPort : string;
  rTLSTermination : string;
  rInsecureEdgeTerminationPolicy : string
}.

(** [api.MetricsCluster]: its name and [Spec.URLs]. *)
Record MetricsCluster := {
  mcNamespace : string;
  mcName : string;
  mcURLs : list string
}.

(** The zero value [&api.MetricsCluster{}]. *)
Definition zeroMetricsCluster : MetricsCluster :=
  {| mcNamespace := ""; mcName := ""; mcURLs := [] |}.

(** The fields of [prowapi.ProwJob] the operator reads.  [Status.StartTime]
    is a [metav1.Time] value, [Status.CompletionTime] a [*metav1.Time]
    pointer: [None] is the nil pointer of a document without a completion
    time. *)
Record ProwJob := {
  pjSpecJob : string;
  pjStatusURL : string;
  pjStatusStartTime : Time;
  pjStatusCompletionTime : option Time
}.

(** The zero value [var prowJob prowapi.ProwJob]. *)
Definition zeroProwJob : ProwJob :=
  {| pjSpecJob := ""; pjStatusURL := ""; pjStatusStartTime := 0;
     pjStatusCompletionTime := None |}.

Record Job := {
  jProwJob : ProwJob;
  PrometheusTarURL : string
}.

Record Operator := {
  Namespace : string;
  FetcherImage : string;
  PrometheusImage : string;
  ThanosImage : string;
  GCSStorageBaseURL : string;
  ProwBaseURL : string;
  GCSPrefix : string;
  PrometheusMemory : string
}.

#[global] Instance ContainerPort_eq_dec : EqDecision ContainerPort.
Proof. solve_decision. Defined.
#[global] Instance VolumeMount_eq_dec : EqDecision VolumeMount.
Proof. solve_decision. Defined.
#[global] Instance Probe_eq_dec : EqDecision Probe.
Proof. solve_decision. Defined.
#[global] Instance Container_eq_dec : EqDecision Container.
Proof. solve_decision. Defined.
#[global] Instance PodSpec_eq_dec : EqDecision PodSpec.
Proof. solve_decision. Defined.
#[global] Instance PodTemplateSpec_eq_dec `{EqDecision L} :
  EqDecision (PodTemplateSpec L).
Proof. solve_decision. Defined.
#[global] Instance DeploymentSpec_eq_dec `{EqDecision L} :
  EqDecision (DeploymentSpec L).
Proof. solve_decision. Defined.
#[global] Instance Deployment_eq_dec `{EqDecision L} :
  EqDecision (Deployment L).
Proof. solve_decision. Defined.
#[global] Instance ServicePort_eq_dec : EqDecision ServicePort.
Proof. solve_decision. Defined.
#[global] Instance Service_eq_dec : EqDecision Service.
Proof. solve_decision. Defined.
#[global] Instance Route_eq_dec : EqDecision Route.
Proof. solve_decision. Defined.
#[global] Instance MetricsCluster_eq_dec : EqDecision MetricsCluster.
Proof. solve_decision. Defined.

(** [equality.Semantic.DeepEqual] on values of one type: structural
    equality (maps by content). *)
Definition DeepEqual {A} `{EqDecision A} (x y : A) : bool :=
  bool_decide (x = y).

(** ** What the operator calls but does not define *)

(** Go library functions, taken as given. *)
Record GoLib := {
  (** [strings.ReplaceAll s old new] *)
  strings_ReplaceAll : string -> string -> string -> string;
  (** [sha256.Sum256([]byte(s))], the 32 bytes of the digest *)
  sha256_Sum256 : string -> list byte;
  (** [t.UTC().Format(time.RFC3339)] *)
  time_FormatRFC3339 : Time -> string;
  (** [resource.ParseQuantity]; [resource.MustParse] panics where it fails *)
  resource_ParseQuantity : string -> option Quantity
}.

Inductive Kind := KMetricsCluster | KDeployment | KService | KRoute.

(** One call of the orchestration-API client.  [CList] carries the namespace
    of its [ListOptions]. *)
Inductive Call :=
| CGet (k : Kind) (key : NamespacedName)
| CList (k : Kind) (ns : string)
| CCreate (k : Kind) (key : NamespacedName)
| CUpdate (k : Kind) (key : NamespacedName)
| CDelete (k : Kind) (key : NamespacedName).

#[global] Instance Kind_eq_dec : EqDecision Kind.
Proof. solve_decision. Defined.
#[global] Instance Call_eq_dec : EqDecision Call.
Proof. solve_decision. Defined.

(** [isWrite c]: the call is a create, an update or a delete. *)
Definition isWrite (c : Call) : bool :=
  match c with
  | CCreate _ _ | CUpdate _ _ | CDelete _ _ => true
  | CGet _ _ | CList _ _ => false
  end.

(** The world outside the process during one reconciliation.
    - [http_Get u] is [None] when [http.Get(u)] returns an error; otherwise it
      is the pair of the value of [prowJob] after
      [json.NewDecoder(resp.Body).Decode(&prowJob)] and of whether [Decode]
      returned an error.
    - [getTarURLFromProw jobURL gcsPrefix] is the artifact-discovery lookup
      (a function of this repository outside operator.go): the archive URL,
      or an error message.
    - [apiFault c] tells whether the API call [c] fails with an error that is
      not a not-found error. *)
Record Outside := {
  http_Get : string -> option (ProwJob * bool);
  getTarURLFromProw : string -> string -> string + string;
  apiFault : Call -> bool
}.

(** ** The state a reconciliation runs in *)

(** The objects the API stores, by namespace and name. *)
Record World := {
  wClusters : gmap NamespacedName MetricsCluster;
  wDeployments : gmap NamespacedName (Deployment StrMap);
  wServices : gmap NamespacedName Service;
  wRoutes : gmap NamespacedName Route
}.

Definition emptyWorld : World :=
  {| wClusters := ∅; wDeployments := ∅; wServices := ∅; wRoutes := ∅ |}.

(** A reference to a Go map, and the heap of the maps allocated so far. *)
Abbreviation MapRef := nat.
Abbreviation Heap := (list StrMap).

(** - [world]: the objects the API stores;
    - [calls]: the API calls issued so far, oldest first;
    - [prometheusURLs]: the package variable of that name, [None] while nil;
    - [lookups]: the job URLs handed to [getTarURLFromProw] so far;
    - [heap]: the label maps of the objects held in memory. *)
Record State := {
  world : World;
  calls : list Call;
  prometheusURLs : option StrMap;
  lookups : list string;
  heap : Heap
}.

Definition initState (w : World) : State :=
  {| world := w; calls := []; prometheusURLs := None; lookups := [];
     heap := [] |}.

(** The entries of the memoization cache. *)
Definition cacheEntries (c : option StrMap) : StrMap := default ∅ c.

(** The write calls issued between two states of one run. *)
Definition writes (cs : list Call) : list Call := filter (λ c, isWrite c = true) cs.

(** How a call of a reconciler ends: it returns a value, it returns an error
    (with the message it wraps the cause in), or it panics. *)
Inductive Res (A : Type) :=
| Val (a : A)
| Raise (msg : string)
| Panicked.
Arguments Val {A} _.
Arguments Raise {A} _.
Arguments Panicked {A}.

Definition M (A : Type) : Type := State -> Res A * State.

Definition ret {A} (a : A) : M A := λ st, (Val a, st).

Definition bind {A B} (m : M A) (k : A -> M B) : M B :=
  λ st, match m st with
        | (Val a, st') => k a st'
        | (Raise msg, st') => (Raise msg, st')
        | (Panicked, st') => (Panicked, st')
        end.

Definition raise {A} (msg : string) : M A := λ st, (Raise msg, st).
Definition panic {A} : M A := λ st, (Panicked, st).

Notation "'let*' x ':=' m 'in' k" := (bind m (λ x, k))
  (at level 10, x name, m at level 100, k at level 200).
Notation "m ;;; k" := (bind m (λ _, k))
  (at level 100, right associativity).

(** [for _, x := range xs { body }], where [body] ends an iteration by
    returning unit and leaves the function by [raise] or [panic]. *)
Fixpoint forRange {A} (xs : list A) (body : A -> M unit) : M unit :=
  match xs with
  | [] => ret tt
  | x :: xs' => body x ;;; forRange xs' body
  end.

(** *** The heap of label maps *)

Definition heapAlloc (m : StrMap) : M MapRef :=
  λ st, (Val (length (heap st)),
         {| world := world st; calls := calls st;
            prometheusURLs := prometheusURLs st; lookups := lookups st;
            heap := heap st ++ [m] |}).

Definition heapRead (h : Heap) (r : MapRef) : StrMap := default ∅ (h !! r).

(** [m[k] = v] on the map [r] refers to. *)
Definition heapStore (r : MapRef) (k v : string) : M unit :=
  λ st, (Val tt,
         {| world := world st; calls := calls st;
            prometheusURLs := prometheusURLs st; lookups := lookups st;
            heap := <[r := <[k := v]> (heapRead (heap st) r)]> (heap st) |}).

Definition getHeap : M Heap := λ st, (Val (heap st), st).

(** The content of an in-memory spec and deployment: what serialisation
    sends and what [DeepEqual] compares. *)
Definition snapTemplate (h : Heap) (t : PodTemplateSpec MapRef) : PodTemplateSpec StrMap :=
  {| tLabels := heapRead h (tLabels t); tAnnotations := tAnnotations t;
     tSpec := tSpec t |}.

Definition snapSpec (h : Heap) (s : DeploymentSpec MapRef) : DeploymentSpec StrMap :=
  {| dsReplicas := dsReplicas s; dsSelector := dsSelector s;
     dsTemplate := snapTemplate h (dsTemplate s) |}.

Definition snapDeployment (h : Heap) (d : Deployment MapRef) : Deployment StrMap :=
  {| dNamespace := dNamespace d; dName := dName d; dLabels := dLabels d;
     dAnnotations := dAnnotations d; dSpec := snapSpec h (dSpec d) |}.

(** Decoding a stored deployment into a fresh in-memory object. *)
Definition loadDeployment (d : Deployment StrMap) : M (Deployment MapRef) :=
  let* r := heapAlloc (tLabels (dsTemplate (dSpec d))) in
  ret {| dNamespace := dNamespace d; dName := dName d; dLabels := dLabels d;
         dAnnotations := dAnnotations d;
         dSpec := {| dsReplicas := dsReplicas (dSpec d);
                     dsSelector := dsSelector (dSpec d);
                     dsTemplate :=
                       {| tLabels := r;
                          tAnnotations := tAnnotations (dsTemplate (dSpec d));
                          tSpec := tSpec (dsTemplate (dSpec d)) |} |} |}.

(** *** The orchestration-API client *)

(** What a client call returns: success, a not-found error
    ([errors.IsNotFound]), or another error. *)
Inductive ApiResult (A : Type) :=
| Success (a : A)
| NotFoundErr
| OtherErr.
Arguments Success {A} _.
Arguments NotFoundErr {A}.
Arguments OtherErr {A}.

(** One kind of stored object: where the world keeps it and how it is keyed. *)
Record Store (A : Type) := {
  stKind : Kind;
  stGet : World -> gmap NamespacedName A;
  stSet : gmap NamespacedName A -> World -> World;
  stKey : A -> NamespacedName
}.
Arguments stKind {A} _.
Arguments stGet {A} _ _.
Arguments stSet {A} _ _ _.
Arguments stKey {A} _ _.

Definition clusterStore : Store MetricsCluster :=
  {| stKind := KMetricsCluster;
     stGet := wClusters;
     stSet := λ m w, {| wClusters := m; wDeployments := wDeployments w;
                        wServices := wServices w; wRoutes := wRoutes w |};
     stKey := λ c, (mcNamespace c, mcName c) |}.

Definition deploymentStore : Store (Deployment StrMap) :=
  {| stKind := KDeployment;
     stGet := wDeployments;
     stSet := λ m w, {| wClusters := wClusters w; wDeployments := m;
                        wServices := wServices w; wRoutes := wRoutes w |};
     stKey := λ d, (dNamespace d, dName d) |}.

Definition serviceStore : Store Service :=
  {| stKind := KService;
     stGet := wServices;
     stSet := λ m w, {| wClusters := wClusters w; wDeployments := wDeployments w;
                        wServices := m; wRoutes := wRoutes w |};
     stKey := λ s, (sNamespace s, sName s) |}.

Definition routeStore : Store Route :=
  {| stKind := KRoute;
     stGet := wRoutes;
     stSet := λ m w, {| wClusters := wClusters w; wDeployments := wDeployments w;
                        wServices := wServices w; wRoutes := m |};
     stKey := λ r, (rNamespace r, rName r) |}.

Definition logCall (c : Call) : M unit :=
  λ st, (Val tt,
         {| world := world st; calls := calls st ++ [c];
            prometheusURLs := prometheusURLs st; lookups := lookups st;
            heap := heap st |}).

Definition getWorld : M World := λ st, (Val (world st), st).

Definition setWorld (w : World) : M unit :=
  λ st, (Val tt,
         {| world := w; calls := calls st;
            prometheusURLs := prometheusURLs st; lookups := lookups st;
            heap := heap st |}).

(** The stored objects of one kind in the namespace [ns]. *)
Definition storedIn {A} (S : Store A) (ns : string) (w : World) : list A :=
  snd <$> filter (λ kv, nnNamespace (fst kv) = ns) (map_to_list (stGet S w)).

Section Client.
Context (E : Outside).
Context {A : Type} (S : Store A).

(** [o.client.Get(ctx, key, obj)] *)
Definition client_Get (key : NamespacedName) : M (ApiResult A) :=
  logCall (CGet (stKind S) key) ;;;
  if apiFault E (CGet (stKind S) key) then ret OtherErr
  else
    let* w := getWorld in
    match stGet S w !! key with
    | Some a => ret (Success a)
    | None => ret NotFoundErr
    end.

(** [o.client.List(ctx, list, &client.ListOptions{Namespace: ns})]: the
    stored objects of the namespace. *)
Definition client_List (ns : string) : M (ApiResult (list A)) :=
  logCall (CList (stKind S) ns) ;;;
  if apiFault E (CList (stKind S) ns) then ret OtherErr
  else
    let* w := getWorld in
    ret (Success (storedIn S ns w)).

(** [o.client.Create(ctx, obj)]; creating what exists already fails, and
    not with a not-found error. *)
Definition client_Create (obj : A) : M (ApiResult unit) :=
  logCall (CCreate (stKind S) (stKey S obj)) ;;;
  if apiFault E (CCreate (stKind S) (stKey S obj)) then ret OtherErr
  else
    let* w := getWorld in
    match stGet S w !! stKey S obj with
    | Some _ => ret OtherErr
    | None =>
        setWorld (stSet S (<[stKey S obj := obj]> (stGet S w)) w) ;;;
        ret (Success tt)
    end.

(** [o.client.Update(ctx, obj)] replaces the stored object of that name. *)
Definition client_Update (obj : A) : M (ApiResult unit) :=
  logCall (CUpdate (stKind S) (stKey S obj)) ;;;
  if apiFault E (CUpdate (stKind S) (stKey S obj)) then ret OtherErr
  else
    let* w := getWorld in
    match stGet S w !! stKey S obj with
    | None => ret NotFoundErr
    | Some _ =>
        setWorld (stSet S (<[stKey S obj := obj]> (stGet S w)) w) ;;;
        ret (Success tt)
    end.

(** [o.client.Delete(ctx, obj)] *)
Definition client_Delete (obj : A) : M (ApiResult unit) :=
  logCall (CDelete (stKind S) (stKey S obj)) ;;;
  if apiFault E (CDelete (stKind S) (stKey S obj)) then ret OtherErr
  else
    let* w := getWorld in
    match stGet S w !! stKey S obj with
    | None => ret NotFoundErr
    | Some _ =>
        setWorld (stSet S (delete (stKey S obj) (stGet S w)) w) ;;;
        ret (Success tt)
    end.
End Client.

(** ** Naming (operator.go:376-380, 557-560, 591-594, 669-672, 702-705) *)

(** [fmt.Sprintf("%x", bs)]: two lower-case hexadecimal digits per byte. *)
Definition hexDigit (n : N) : Ascii.ascii :=
  match n with
  | 0%N => "0" | 1%N => "1" | 2%N => "2" | 3%N => "3"
  | 4%N => "4" | 5%N => "5" | 6%N => "6" | 7%N => "7"
  | 8%N => "8" | 9%N => "9" | 10%N => "a" | 11%N => "b"
  | 12%N => "c" | 13%N => "d" | 14%N => "e" | _ => "f"
  end%char.

Definition hexByte (b : byte) : string :=
  String (hexDigit (Byte.to_N b / 16)) (String (hexDigit (Byte.to_N b mod 16)) "").

Fixpoint hexBytes (bs : list byte) : string :=
  match bs with
  | [] => ""
  | b :: bs' => hexByte b +:+ hexBytes bs'
  end.

Section Naming.
Context (L : GoLib) (o : Operator).

Definition prometheusDeploymentName (job : Job) : NamespacedName :=
  let hash := sha256_Sum256 L (pjStatusURL (jProwJob job)) in
  let name := "prometheus-" +:+ hexBytes (take 6 hash) in
  (Namespace o, name).

Definition thanosStoreServiceName (cluster : MetricsCluster) : NamespacedName :=
  let name := "store-" +:+ mcName cluster in
  (Namespace o, name).

Definition thanosQueryDeploymentName (cluster : MetricsCluster) : NamespacedName :=
  let name := "query-" +:+ mcName cluster in
  (Namespace o, name).

Definition thanosQueryServiceName (cluster : MetricsCluster) : NamespacedName :=
  let name := "query-" +:+ mcName cluster in
  (Namespace o, name).

Definition thanosQueryRouteName (cluster : MetricsCluster) : NamespacedName :=
  let name := "query-" +:+ mcName cluster in
  (Namespace o, name).
End Naming.

(** ** Manifest builders (operator.go:382-555, 562-589, 596-667, 674-751) *)

Definition deploymentInitScript : string :=
  "set -uxo pipefail
umask 0000
curl -sL ${PROMTAR} | tar xvz -m
chown -R 65534:65534 /prometheus

cat >/prometheus/prometheus.yml <<EOL
# my global config
global:
  external_labels:
    cluster_name: '${DEPLOYMENT_NAME}'
    cluster_url: '${PROW_URL}'
    cluster_job: '${PROW_JOB}'

scrape_configs:
  - job_name: 'prometheus'
    static_configs:
    - targets: ['localhost:9090']
EOL
".

Definition ProtocolTCP : string := "TCP".
Definition ClusterIPNone : string := "None".
Definition TLSTerminationEdge : string := "edge".
Definition InsecureEdgeTerminationPolicyRedirect : string := "Redirect".

(** The readiness probe all three long-running containers share, up to the port. *)
Definition readinessProbe (port : Z) : Probe :=
  {| prTimeoutSeconds := 1; prPeriodSeconds := 10;
     prSuccessThreshold := 1; prFailureThreshold := 3;
     prPath := "/"; prPort := port; prScheme := "HTTP" |}.

Definition storageVolumeMount : VolumeMount :=
  {| vmName := "prometheus-storage-volume"; vmMountPath := "/prometheus/" |}.

Section Manifests.
Context (L : GoLib) (o : Operator).

(** The pod of a Storage Workload, once the memory request is parsed. *)
Definition prometheusPodSpec (job : Job) (name : NamespacedName)
    (memory : Quantity) : PodSpec :=
  {| psShareProcessNamespace := Some true;
     psVolumes := ["prometheus-storage-volume"];
     psInitContainers :=
       [ {| ctName := "setup";
            ctImage := FetcherImage o;
            ctCommand := ["/bin/bash"; "-c"; deploymentInitScript];
            ctWorkingDir := "/prometheus/";
            ctEnv := [ ("PROMTAR", PrometheusTarURL job);
                       ("DEPLOYMENT_NAME", nnName name);
                       ("PROW_URL", pjStatusURL (jProwJob job));
                       ("PROW_JOB", pjSpecJob (jProwJob job)) ];
            ctPorts := [];
            ctVolumeMounts := [storageVolumeMount];
            ctRequests := ∅;
            ctReadinessProbe := None |} ];
     psContainers :=
       [ {| ctName := "prometheus";
            ctImage := PrometheusImage o;
            ctCommand := [ "/bin/prometheus";
                           "--storage.tsdb.max-block-duration=2h";
                           "--storage.tsdb.min-block-duration=2h";
                           "--web.enable-lifecycle";
                           "--storage.tsdb.path=/prometheus";
                           "--config.file=/prometheus/prometheus.yml" ];
            ctWorkingDir := "";
            ctEnv := [];
            ctPorts := [ {| cpName := "webui"; cpProtocol := ProtocolTCP;
                            cpContainerPort := 9090 |} ];
            ctVolumeMounts := [storageVolumeMount];
            ctRequests := {[ "cpu" := "100m"; "memory" := memory ]};
            ctReadinessProbe := Some (readinessProbe 9090) |};
         {| ctName := "thanos-sidecar";
            ctImage := ThanosImage o;
            ctCommand := [ "/bin/thanos";
                           "sidecar";
                           "--tsdb.path=/prometheus";
                           "--prometheus.url=http://localhost:9090";
                           "--shipper.upload-compacted" ];
            ctWorkingDir := "";
            ctEnv := [];
            ctPorts := [ {| cpName := "webui"; cpProtocol := ProtocolTCP;
                            cpContainerPort := 9090 |} ];
            ctVolumeMounts := [storageVolumeMount];
            ctRequests := ∅;
            ctReadinessProbe := Some (readinessProbe 9090) |} ] |}.

(** The composite literal of operator.go:387-554, given the completion time
    the pointer refers to, the parsed memory request, and the pod-template
    label map [templateLabels] (a reference for the object in memory, the
    map itself for the object as stored). *)
Definition prometheusDeploymentObject {T : Type} (job : Job)
    (completionTime : Time) (memory : Quantity) (templateLabels : T) : Deployment T :=
  let name := prometheusDeploymentName L o job in
  let replicas := 1 in
  let annotations : StrMap :=
    {[ "url" := pjStatusURL (jProwJob job);
       "started" := time_FormatRFC3339 L (pjStatusStartTime (jProwJob job));
       "completed" := time_FormatRFC3339 L completionTime ]} in
  {| dNamespace := nnNamespace name;
     dName := nnName name;
     dLabels := {[ "app" := "prometheus" ]};
     dAnnotations := annotations;
     dSpec :=
       {| dsReplicas := Some replicas;
          dsSelector := {[ "app" := "prometheus"; "prometheus" := nnName name ]};
          dsTemplate :=
            {| tLabels := templateLabels;
               tAnnotations := annotations;
               tSpec := prometheusPodSpec job name memory |} |} |}.

(** The pod-template labels of the literal (operator.go:410-413). *)
Definition prometheusTemplateLabels (job : Job) : StrMap :=
  {[ "app" := "prometheus";
     "prometheus" := nnName (prometheusDeploymentName L o job) ]}.

(** [prometheusDeploymentManifest].  The composite literal is evaluated
    field by field: [job.Status.CompletionTime.UTC()] (operator.go:397)
    dereferences the [*metav1.Time] pointer and panics on nil; the
    pod-template label map (operator.go:410) is allocated next;
    [resource.MustParse(o.PrometheusMemory)] (operator.go:490) panics on a
    string that is no quantity. *)
Definition prometheusDeploymentManifest (job : Job) : M (Deployment MapRef) :=
  match pjStatusCompletionTime (jProwJob job) with
  | None => panic
  | Some completionTime =>
      let* templateLabels := heapAlloc (prometheusTemplateLabels job) in
      match resource_ParseQuantity L (PrometheusMemory o) with
      | None => panic
      | Some memory =>
          ret (prometheusDeploymentObject job completionTime memory templateLabels)
      end
  end.

Definition thanosStoreServiceManifest (cluster : MetricsCluster) : Service :=
  let name := thanosStoreServiceName o cluster in
  {| sNamespace := nnNamespace name;
     sName := nnName name;
     sClusterIP := ClusterIPNone;
     sPorts := [ {| spName := "grpc"; spPort := 10901; spProtocol := ProtocolTCP |};
                 {| spName := "http"; spPort := 10902; spProtocol := ProtocolTCP |} ];
     sSelector := <[mcName cluster := "true"]> {[ "app" := "prometheus" ]} |}.

Definition thanosQueryDeploymentManifest (cluster : MetricsCluster) : Deployment StrMap :=
  let name := thanosQueryDeploymentName o cluster in
  let storeServiceName := thanosStoreServiceName o cluster in
  let replicas := 1 in
  {| dNamespace := nnNamespace name;
     dName := nnName name;
     dLabels := {[ "app" := "thanos-query" ]};
     dAnnotations := ∅;
     dSpec :=
       {| dsReplicas := Some replicas;
          dsSelector := {[ "app" := "thanos-query"; "cluster" := mcName cluster ]};
          dsTemplate :=
            {| tLabels := {[ "app" := "thanos-query"; "cluster" := mcName cluster ]};
               tAnnotations := ∅;
               tSpec :=
                 {| psShareProcessNamespace := None;
                    psVolumes := [];
                    psInitContainers := [];
                    psContainers :=
                      [ {| ctName := "query";
                           ctImage := ThanosImage o;
                           ctCommand :=
                             [ "/bin/thanos";
                               "query";
                               "--http-address=0.0.0.0:19192";
                               "--store.sd-dns-interval=10s";
                               "--store=dnssrv+_grpc._tcp." +:+ nnName storeServiceName
                                 +:+ "." +:+ nnNamespace storeServiceName +:+ ".svc" ];
                           ctWorkingDir := "";
                           ctEnv := [];
                           ctPorts := [ {| cpName := "http"; cpProtocol := ProtocolTCP;
                                           cpContainerPort := 19192 |} ];
                           ctVolumeMounts := [];
                           ctRequests := ∅;
                           ctReadinessProbe := Some (readinessProbe 19192) |} ] |} |} |} |}.

Definition thanosQueryServiceManifest (cluster : MetricsCluster) : Service :=
  let name := thanosQueryServiceName o cluster in
  {| sNamespace := nnNamespace name;
     sName := nnName name;
     sClusterIP := "";
     sPorts := [ {| spName := "http"; spPort := 19192; spProtocol := ProtocolTCP |};
                 {| spName := "grpc"; spPort := 10901; spProtocol := ProtocolTCP |} ];
     sSelector := {[ "app" := "thanos-query"; "cluster" := mcName cluster ]} |}.

Definition thanosQueryRouteManifest (cluster : MetricsCluster) : Route :=
  let name := thanosQueryRouteName o cluster in
  let queryServiceName := thanosQueryServiceName o cluster in
  {| rNamespace := nnNamespace name;
     rName := nnName name;
     rToKind := "Service";
     rToName := nnName queryServiceName;
     rTargetPort := "http";
     rTLSTermination := TLSTerminationEdge;
     rInsecureEdgeTerminationPolicy := InsecureEdgeTerminationPolicyRedirect |}.
End Manifests.

(** ** The memoising resolver (operator.go:753-772) *)

Definition getPrometheusURLs : M (option StrMap) := λ st, (Val (prometheusURLs st), st).

Definition setPrometheusURLs (c : option StrMap) : M unit :=
  λ st, (Val tt,
         {| world := world st; calls := calls st;
            prometheusURLs := c; lookups := lookups st; heap := heap st |}).

Definition logLookup (jobURL : string) : M unit :=
  λ st, (Val tt,
         {| world := world st; calls := calls st;
            prometheusURLs := prometheusURLs st;
            lookups := lookups st ++ [jobURL]; heap := heap st |}).

Section Resolver.
Context (E : Outside).

(** [findPrometheusTarURL]: the archive URL on the left, the error on the
    right.  The lock is held from entry to return; a reconciliation of this
    model runs alone, so taking it has no effect here. *)
Definition findPrometheusTarURL (jobURL gcsPrefix : string) : M (string + string) :=
  let* c := getPrometheusURLs in
  let urls := match c with
              | None => ∅
              | Some m => m
              end in
  setPrometheusURLs (Some urls) ;;;
  match urls !! jobURL with
  | Some prometheusURL => ret (inl prometheusURL)
  | None =>
      logLookup jobURL ;;;
      match getTarURLFromProw E jobURL gcsPrefix with
      | inr err => ret (inr err)
      | inl tarURL =>
          setPrometheusURLs (Some (<[jobURL := tarURL]> urls)) ;;;
          ret (inl tarURL)
      end
  end.
End Resolver.

(** ** The reconcilers (operator.go:149-374) *)

(** The struct assignment [d.Spec = s]: the fields of [s] are copied, and the
    pod-template label map with them as a reference. *)
Definition withSpec {L} (d : Deployment L) (s : DeploymentSpec L) : Deployment L :=
  {| dNamespace := dNamespace d; dName := dName d; dLabels := dLabels d;
     dAnnotations := dAnnotations d; dSpec := s |}.

(** [delete(d.Spec.Template.Labels, k)] on a deployment taken from a list. *)
Definition deleteTemplateLabel (k : string) (d : Deployment StrMap) : Deployment StrMap :=
  withSpec d
    {| dsReplicas := dsReplicas (dSpec d);
       dsSelector := dsSelector (dSpec d);
       dsTemplate :=
         {| tLabels := delete k (tLabels (dsTemplate (dSpec d)));
            tAnnotations := tAnnotations (dsTemplate (dSpec d));
            tSpec := tSpec (dsTemplate (dSpec d)) |} |}.

(** [_, has := m[k]] *)
Definition hasKey (m : StrMap) (k : string) : bool := bool_decide (is_Some (m !! k)).

Section Reconcilers.
Context (L : GoLib) (E : Outside) (o : Operator).

(** operator.go:170-199.  The loop with [break] is a search for the first
    cluster whose name is a key of the pod-template labels. *)
Definition reconcilePrometheusDeployment (deployment : Deployment StrMap) : M unit :=
  let* clusters := client_List E clusterStore (Namespace o) in
  match clusters with
  | Success items =>
      let isReferenced :=
        existsb (λ cluster,
                   hasKey (tLabels (dsTemplate (dSpec deployment))) (mcName cluster))
                items in
      if negb isReferenced then
        let* err := client_Delete E deploymentStore deployment in
        match err with
        | Success _ => ret tt
        | NotFoundErr => ret tt
        | OtherErr => raise "couldn't delete deployment"
        end
      else ret tt
  | _ => raise "couldn't fetch metricsclusters"
  end.

(** operator.go:149-168 *)
Definition reconcileDeployment (request : NamespacedName) : M unit :=
  let* got := client_Get E deploymentStore request in
  match got with
  | NotFoundErr => ret tt
  | OtherErr => raise "couldn't fetch deployment"
  | Success deployment =>
      match dLabels deployment !! "app" with
      | Some value =>
          if bool_decide (value = "prometheus")
          then reconcilePrometheusDeployment deployment
          else ret tt
      | None => ret tt
      end
  end.

(** operator.go:209-225, the branch taken when the Declared Cluster is not
    found.  [cluster] is the object [Get] was asked to fill in; [Get]
    returned an error and left it as it was. *)
Definition removeReferences (cluster : MetricsCluster) : M unit :=
  let* deploymentList := client_List E deploymentStore (Namespace o) in
  match deploymentList with
  | Success items =>
      forRange items (λ deployment,
        if hasKey (tLabels (dsTemplate (dSpec deployment))) (mcName cluster) then
          let deployment' := deleteTemplateLabel (mcName cluster) deployment in
          let* err := client_Update E deploymentStore deployment' in
          (* the error is logged and the loop goes on *)
          ret tt
        else ret tt)
  | _ => raise "couldn't list deployments"
  end.

(** operator.go:230-287, the body of the loop over [cluster.Spec.URLs];
    [continue] is [ret tt]. *)
Definition reconcileURL (cluster : MetricsCluster) (url : string) : M unit :=
  let prowInfoURL :=
    strings_ReplaceAll L url (ProwBaseURL o) (GCSStorageBaseURL o) +:+ "/prowjob.json" in
  match http_Get E prowInfoURL with
  | None => ret tt
  | Some (prowJob, decodeFailed) =>
      (* a decode error is logged and nothing else *)
      let* found := findPrometheusTarURL E url (GCSPrefix o) in
      match found with
      | inr err => ret tt
      | inl prometheusTarURL =>
          let job := {| jProwJob := prowJob; PrometheusTarURL := prometheusTarURL |} in
          let prometheusDeploymentName := prometheusDeploymentName L o job in
          let* got := client_Get E deploymentStore prometheusDeploymentName in
          match got with
          | OtherErr => raise "couldn't fetch deployment"
          | NotFoundErr =>
              let* desiredPrometheusDeployment := prometheusDeploymentManifest L o job in
              heapStore (tLabels (dsTemplate (dSpec desiredPrometheusDeployment)))
                        (mcName cluster) "true" ;;;
              let* h := getHeap in
              let* err := client_Create E deploymentStore
                            (snapDeployment h desiredPrometheusDeployment) in
              match err with
              | Success _ => ret tt
              | _ => raise "couldn't create deployment for url"
              end
          | Success observed =>
              let* prometheusDeployment := loadDeployment observed in
              let* desiredPrometheusDeployment := prometheusDeploymentManifest L o job in
              let prometheusDeployment :=
                withSpec prometheusDeployment (dSpec desiredPrometheusDeployment) in
              heapStore (tLabels (dsTemplate (dSpec prometheusDeployment)))
                        (mcName cluster) "true" ;;;
              let* h := getHeap in
              if negb (DeepEqual (snapSpec h (dSpec prometheusDeployment))
                                 (snapSpec h (dSpec desiredPrometheusDeployment)))
                 || negb (DeepEqual (dLabels prometheusDeployment)
                                    (dLabels desiredPrometheusDeployment))
                 || negb (DeepEqual (dAnnotations prometheusDeployment)
                                    (dAnnotations desiredPrometheusDeployment))
              then
                let* err := client_Update E deploymentStore
                              (snapDeployment h prometheusDeployment) in
                match err with
                | Success _ => ret tt
                | _ => raise "couldn't update deployment for url"
                end
              else ret tt
          end
      end
  end.

(** operator.go:289-308 *)
Definition ensureStoreService (cluster : MetricsCluster) : M unit :=
  let storeServiceName := thanosStoreServiceName o cluster in
  let* got := client_Get E serviceStore storeServiceName in
  match got with
  | OtherErr => raise "couldn't fetch service"
  | Success _ => ret tt
  | NotFoundErr =>
      let* err := client_Create E serviceStore (thanosStoreServiceManifest o cluster) in
      match err with
      | Success _ => ret tt
      | _ => raise "couldn't create service"
      end
  end.

(** operator.go:310-329 *)
Definition ensureQueryDeployment (cluster : MetricsCluster) : M unit :=
  let queryDeploymentName := thanosQueryDeploymentName o cluster in
  let* got := client_Get E deploymentStore queryDeploymentName in
  match got with
  | OtherErr => raise "couldn't fetch deployment"
  | Success _ => ret tt
  | NotFoundErr =>
      let* err := client_Create E deploymentStore (thanosQueryDeploymentManifest o cluster) in
      match err with
      | Success _ => ret tt
      | _ => raise "couldn't create deployment"
      end
  end.

(** operator.go:331-350 *)
Definition ensureQueryService (cluster : MetricsCluster) : M unit :=
  let queryServiceName := thanosQueryServiceName o cluster in
  let* got := client_Get E serviceStore queryServiceName in
  match got with
  | OtherErr => raise "couldn't fetch service"
  | Success _ => ret tt
  | NotFoundErr =>
      let* err := client_Create E serviceStore (thanosQueryServiceManifest o cluster) in
      match err with
      | Success _ => ret tt
      | _ => raise "couldn't create service"
      end
  end.

(** operator.go:352-371 *)
Definition ensureQueryRoute (cluster : MetricsCluster) : M unit :=
  let queryRouteName := thanosQueryRouteName o cluster in
  let* got := client_Get E routeStore queryRouteName in
  match got with
  | OtherErr => raise "couldn't fetch route"
  | Success _ => ret tt
  | NotFoundErr =>
      let* err := client_Create E routeStore (thanosQueryRouteManifest o cluster) in
      match err with
      | Success _ => ret tt
      | _ => raise "couldn't create route"
      end
  end.

(** operator.go:230-287, the loop over the job URLs. *)
Definition reconcileURLs (cluster : MetricsCluster) (urls : list string) : M unit :=
  forRange urls (reconcileURL cluster).

(** operator.go:289-373, the four create-if-absent steps in source order. *)
Definition ensureDerived (cluster : MetricsCluster) : M unit :=
  ensureStoreService cluster ;;;
  ensureQueryDeployment cluster ;;;
  ensureQueryService cluster ;;;
  ensureQueryRoute cluster.

(** operator.go:201-374 *)
Definition reconcileMetricsCluster (request : NamespacedName) : M unit :=
  let cluster := zeroMetricsCluster in
  let* got := client_Get E clusterStore request in
  match got with
  | NotFoundErr => removeReferences cluster
  | OtherErr => raise "couldn't fetch metricscluster"
  | Success cluster =>
      reconcileURLs cluster (mcURLs cluster) ;;;
      ensureDerived cluster
  end.
End Reconcilers.

(** ** Observing a run *)

(** The outcome and the final state of running [m] from [st]. *)
Definition outcome {A} (m : M A) (st : State) : Res A := fst (m st).
Definition after {A} (m : M A) (st : State) : State := snd (m st).

(** The API calls [m] issues when run from [st]. *)
Definition callsDuring {A} (m : M A) (st : State) : list Call :=
  drop (length (calls st)) (calls (after m st)).

(** The pod-template labels of the stored deployment [key], if it is stored. *)
Definition templateLabelsOf (w : World) (key : NamespacedName) : option StrMap :=
  (λ d, tLabels (dsTemplate (dSpec d))) <$> wDeployments w !! key.

(** [Preserves P m]: every run of [m] relates its initial state to its final
    state by [P]. *)
Definition Preserves {A} (P : State -> State -> Prop) (m : M A) : Prop :=
  ∀ st, P st (after m st).

(** Two states agree when they differ at most in the log of network lookups
    and in whether an empty cache is nil or allocated. *)
Definition agree (s1 s2 : State) : Prop :=
  world s1 = world s2 ∧ calls s1 = calls s2 ∧ heap s1 = heap s2 ∧
  cacheEntries (prometheusURLs s1) = cacheEntries (prometheusURLs s2).

(** [Respects m]: from states that agree, [m] ends alike in states that agree. *)
Definition Respects {A} (m : M A) : Prop :=
  ∀ s1 s2, agree s1 s2 → outcome m s1 = outcome m s2 ∧ agree (after m s1) (after m s2).

(** The cache has no entry for [url]. *)
Definition uncached (url : string) (st : State) : Prop :=
  cacheEntries (prometheusURLs st) !! url = None.

(** The cache of the second state is that of the first. *)
Definition sameCache (s s' : State) : Prop := prometheusURLs s' = prometheusURLs s.

(** The second state has no entry for [url] if the first has none. *)
Definition uncachedStays (url : string) (s s' : State) : Prop :=
  uncached url s → uncached url s'.

(** Metadata resolution fails for [url] in state [st]: [http.Get] of the job
    metadata returns an error, or the URL is not cached and artifact
    discovery returns an error. *)
Definition resolutionFails (L : GoLib) (E : Outside) (o : Operator)
    (url : string) (st : State) : Prop :=
  http_Get E (strings_ReplaceAll L url (ProwBaseURL o) (GCSStorageBaseURL o)
              +:+ "/prowjob.json") = None
  ∨ (uncached url st ∧ ∃ err, getTarURLFromProw E url (GCSPrefix o) = inr err).

(** The four create-if-absent sub-steps of operator.go:289-371, by name. *)
Inductive Step := StoreService | QueryDeployment | QueryService | QueryRoute.

Section Steps.
Context (E : Outside) (o : Operator) (cluster : MetricsCluster).

Definition ensureStep (s : Step) : M unit :=
  match s with
  | StoreService => ensureStoreService E o cluster
  | QueryDeployment => ensureQueryDeployment E o cluster
  | QueryService => ensureQueryService E o cluster
  | QueryRoute => ensureQueryRoute E o cluster
  end.

(** The sub-steps that come before [s] in the source. *)
Definition stepsBefore (s : Step) : list Step :=
  match s with
  | StoreService => []
  | QueryDeployment => [StoreService]
  | QueryService => [StoreService; QueryDeployment]
  | QueryRoute => [StoreService; QueryDeployment; QueryService]
  end.

Definition stepsAfter (s : Step) : list Step :=
  match s with
  | StoreService => [QueryDeployment; QueryService; QueryRoute]
  | QueryDeployment => [QueryService; QueryRoute]
  | QueryService => [QueryRoute]
  | QueryRoute => []
  end.

Definition stepKind (s : Step) : Kind :=
  match s with
  | StoreService | QueryService => KService
  | QueryDeployment => KDeployment
  | QueryRoute => KRoute
  end.

Definition stepName (s : Step) : NamespacedName :=
  match s with
  | StoreService => thanosStoreServiceName o cluster
  | QueryDeployment => thanosQueryDeploymentName o cluster
  | QueryService => thanosQueryServiceName o cluster
  | QueryRoute => thanosQueryRouteName o cluster
  end.

(** The object of sub-step [s] is not stored. *)
Definition stepAbsent (s : Step) (w : World) : Prop :=
  match s with
  | StoreService | QueryService => wServices w !! stepName s = None
  | QueryDeployment => wDeployments w !! stepName s = None
  | QueryRoute => wRoutes w !! stepName s = None
  end.

(** The message the error of a failed create is wrapped in. *)
Definition createError (s : Step) : string :=
  match s with
  | StoreService | QueryService => "couldn't create service"
  | QueryDeployment => "couldn't create deployment"
  | QueryRoute => "couldn't create route"
  end.

(** Sub-step [s] is attempted in [cs]: its [Get] is among the calls. *)
Definition attempted (s : Step) (cs : list Call) : bool :=
  bool_decide (CGet (stepKind s) (stepName s) ∈ cs).
End Steps.

(** [st] with the calls [cs] issued after those of [st]. *)
Definition withCalls (cs : list Call) (st : State) : State :=
  {| world := world st; calls := calls st ++ cs;
     prometheusURLs := prometheusURLs st; lookups := lookups st;
     heap := heap st |}.

(** [st] with the stored objects [w]. *)
Definition withWorld (w : World) (st : State) : State :=
  {| world := w; calls := calls st;
     prometheusURLs := prometheusURLs st; lookups := lookups st;
     heap := heap st |}.

(** A cluster of [clusters] has its name as a label key on the pod template
    of [d]. *)
Definition referencedBy (clusters : list MetricsCluster) (d : Deployment StrMap) : Prop :=
  ∃ c, c ∈ clusters ∧ is_Some (tLabels (dsTemplate (dSpec d)) !! mcName c).

(** The four per-cluster names are built from four prefixes, no two of them
    the same. *)
Definition distinctPrefixes (o : Operator) : Prop :=
  ∃ pStore pQueryDeployment pQueryService pQueryRoute : string,
    (∀ c, nnName (thanosStoreServiceName o c) = pStore +:+ mcName c) ∧
    (∀ c, nnName (thanosQueryDeploymentName o c) = pQueryDeployment +:+ mcName c) ∧
    (∀ c, nnName (thanosQueryServiceName o c) = pQueryService +:+ mcName c) ∧
    (∀ c, nnName (thanosQueryRouteName o c) = pQueryRoute +:+ mcName c) ∧
    pStore ≠ pQueryDeployment ∧ pStore ≠ pQueryService ∧ pStore ≠ pQueryRoute ∧
    pQueryDeployment ≠ pQueryService ∧ pQueryDeployment ≠ pQueryRoute ∧
    pQueryService ≠ pQueryRoute.

(** The value of the pod-template label [k] of the stored deployment [key];
    [None] when the deployment is not stored or has no such label. *)
Definition templateLabel (w : World) (key : NamespacedName) (k : string) : option string :=
  match templateLabelsOf w key with
  | Some labels => labels !! k
  | None => None
  end.

(** What [prometheusDeploymentManifest] returns, as the API would store it. *)
Definition builtManifest (L : GoLib) (o : Operator) (job : Job) : option (Deployment StrMap) :=
  match prometheusDeploymentManifest L o job (initState emptyWorld) with
  | (Val d, st) => Some (snapDeployment (heap st) d)
  | _ => None
  end.

(** What the resolver returns for [url] in state [st]: the cached archive
    URL, or else the result of the lookup. *)
Definition resolved (E : Outside) (o : Operator) (url : string) (st : State) : string + string :=
  match cacheEntries (prometheusURLs st) !! url with
  | Some cached => inl cached
  | None => getTarURLFromProw E url (GCSPrefix o)
  end.

(** The desired Storage Workload of [job] once [cluster] has put its
    referencing label on the pod template (operator.go:264, 267, 279). *)
Definition desiredWorkload (L : GoLib) (o : Operator) (cluster : MetricsCluster)
    (job : Job) (completionTime : Time) (memory : Quantity) : Deployment StrMap :=
  prometheusDeploymentObject L o job completionTime memory
    (<[mcName cluster := "true"]> (prometheusTemplateLabels L o job)).

(** The metadata labels or annotations of [observed] differ from those of
    [desired]: the second and third comparison of operator.go:268-270. *)
Definition metadataDiffers (observed desired : Deployment StrMap) : bool :=
  negb (DeepEqual (dLabels observed) (dLabels desired))
  || negb (DeepEqual (dAnnotations observed) (dAnnotations desired)).

(** What operator.go:271-276 does with the object [written]. *)
Definition updateWorkload (E : Outside) (written : Deployment StrMap) : M unit :=
  let* err := client_Update E deploymentStore written in
  match err with
  | Success _ => ret tt
  | _ => raise "couldn't update deployment for url"
  end.

(** ** A concrete instance, to run the reconcilers on examples

    The theorems of this file hold for every [GoLib] and [Outside].  The
    instance below fixes one of each: [strings.ReplaceAll] is implemented;
    the digest, the time format and the quantity parser are simple
    stand-ins for the Go library's. *)
Module Demo.

Fixpoint isPrefix (p s : string) : bool :=
  match p, s with
  | EmptyString, _ => true
  | String a p', String b s' => bool_decide (a = b) && isPrefix p' s'
  | String _ _, EmptyString => false
  end.

(** [go s skip]: [skip] bytes of a match just replaced are still to be
    passed over. *)
Fixpoint replaceFrom (old new s : string) (skip : nat) : string :=
  match s with
  | EmptyString => EmptyString
  | String c s' =>
      match skip with
      | S k => replaceFrom old new s' k
      | O =>
          if isPrefix old s
          then new +:+ replaceFrom old new s' (String.length old - 1)
          else String c (replaceFrom old new s' 0)
      end
  end.

(** [strings.ReplaceAll] for a non-empty [old]; with an empty [old] the
    text is returned as it is (the operator's [ProwBaseURL] is not empty
    in the examples). *)
Definition ReplaceAll (s old new : string) : string :=
  match old with
  | EmptyString => s
  | _ => replaceFrom old new s 0
  end.

Definition byteOfN (n : N) : byte := default x00 (Byte.of_N (n mod 256)%N).

Fixpoint littleEndian (len : nat) (n : N) : list byte :=
  match len with
  | O => []
  | S len' => byteOfN n :: littleEndian len' (n / 256)%N
  end.

Fixpoint polyHash (s : string) (h : N) : N :=
  match s with
  | EmptyString => h
  | String c s' => polyHash s' ((h * 131 + N_of_ascii c) mod 2 ^ 256)%N
  end.

(** A 32-byte digest standing in for SHA-256. *)
Definition Sum256 (s : string) : list byte := littleEndian 32 (polyHash s 7).

Definition lib : GoLib :=
  {| strings_ReplaceAll := ReplaceAll;
     sha256_Sum256 := Sum256;
     time_FormatRFC3339 := λ t, "T+" +:+ pretty t;
     resource_ParseQuantity := λ s, if bool_decide (s = "") then None else Some s |}.

(** The operator with the defaults of its flags (operator.go:106-113). *)
Definition operator : Operator :=
  {| Namespace := "dowser";
     FetcherImage := "quay.io/fedora/fedora:31-x86_64";
     PrometheusImage := "quay.io/prometheus/prometheus:v2.17.2";
     ThanosImage := "quay.io/thanos/thanos:v0.14.0";
     GCSStorageBaseURL := "https://storage.googleapis.com/origin-ci-test";
     ProwBaseURL := "https://prow.ci.openshift.org/view/gs/origin-ci-test";
     GCSPrefix := "https://gcsweb-ci.apps.ci.l2s4.p1.openshiftapps.com";
     PrometheusMemory := "350Mi" |}.

(** The job URLs: [urlU] and [urlW] resolve; the metadata of [urlV] has no
    completion time; artifact discovery fails for [urlX]; [http.Get] fails
    for [urlY]; the metadata of [urlZ] does not decode, which leaves
    [prowJob] with its zero value. *)
Definition urlU : string := "https://prow.ci.openshift.org/view/gs/origin-ci-test/logs/e2e-aws/101".
Definition urlV : string := "https://prow.ci.openshift.org/view/gs/origin-ci-test/logs/e2e-aws/102".
Definition urlW : string := "https://prow.ci.openshift.org/view/gs/origin-ci-test/logs/e2e-aws/103".
Definition urlX : string := "https://prow.ci.openshift.org/view/gs/origin-ci-test/logs/e2e-aws/104".
Definition urlY : string := "https://prow.ci.openshift.org/view/gs/origin-ci-test/logs/e2e-aws/105".
Definition urlZ : string := "https://prow.ci.openshift.org/view/gs/origin-ci-test/logs/e2e-aws/106".

Definition prowJobOf (url : string) (completed : option Time) : ProwJob :=
  {| pjSpecJob := "e2e-aws"; pjStatusURL := url;
     pjStatusStartTime := 1600000000; pjStatusCompletionTime := completed |}.

Definition httpGet (u : string) : option (ProwJob * bool) :=
  if bool_decide (u = "https://storage.googleapis.com/origin-ci-test/logs/e2e-aws/101/prowjob.json")
  then Some (prowJobOf urlU (Some 1600003600), false)
  else if bool_decide (u = "https://storage.googleapis.com/origin-ci-test/logs/e2e-aws/102/prowjob.json")
  then Some (prowJobOf urlV None, false)
  else if bool_decide (u = "https://storage.googleapis.com/origin-ci-test/logs/e2e-aws/103/prowjob.json")
  then Some (prowJobOf urlW (Some 1600007200), false)
  else if bool_decide (u = "https://storage.googleapis.com/origin-ci-test/logs/e2e-aws/104/prowjob.json")
  then Some (prowJobOf urlX (Some 1600009000), false)
  else if bool_decide (u = "https://storage.googleapis.com/origin-ci-test/logs/e2e-aws/106/prowjob.json")
  then Some (zeroProwJob, true)
  else None.

Definition tarURL (jobURL gcsPrefix : string) : string + string :=
  if bool_decide (jobURL = urlX) then inr "no prometheus.tar found"
  else inl (gcsPrefix +:+ "/gcs/" +:+ jobURL +:+ "/prometheus.tar").

(** No API call fails. *)
Definition outside : Outside :=
  {| http_Get := httpGet; getTarURLFromProw := tarURL; apiFault := λ _, false |}.

(** As [outside], but the API calls [bad] fail. *)
Definition outsideFailing (bad : list Call) : Outside :=
  {| http_Get := httpGet; getTarURLFromProw := tarURL;
     apiFault := λ c, bool_decide (c ∈ bad) |}.

Definition clusterA : MetricsCluster :=
  {| mcNamespace := "dowser"; mcName := "a"; mcURLs := [urlU] |}.
Definition clusterB : MetricsCluster :=
  {| mcNamespace := "dowser"; mcName := "b"; mcURLs := [urlU] |}.

Definition keyA : NamespacedName := ("dowser", "a").
Definition keyB : NamespacedName := ("dowser", "b").

Definition withClusters (cs : list MetricsCluster) (w : World) : World :=
  stSet clusterStore (list_to_map ((λ c, (stKey clusterStore c, c)) <$> cs)) w.

(** The job of [urlU] and the name of its Storage Workload. *)
Definition jobU : Job :=
  {| jProwJob := prowJobOf urlU (Some 1600003600);
     PrometheusTarURL :=
       "https://gcsweb-ci.apps.ci.l2s4.p1.openshiftapps.com/gcs/" +:+ urlU +:+ "/prometheus.tar" |}.

Definition workloadU : NamespacedName := prometheusDeploymentName lib operator jobU.

(** The Storage Workload of [urlU] as the operator builds it
    ([storedWorkloadU_manifest] below), with the pod-template labels
    [extra] and the metadata annotations [annotations] added. *)
Definition storedWorkloadU (extra annotations : StrMap) : Deployment StrMap :=
  let built : StrMap :=
    {[ "url" := urlU; "started" := "T+1600000000"; "completed" := "T+1600003600" ]} in
  {| dNamespace := nnNamespace workloadU;
     dName := nnName workloadU;
     dLabels := {[ "app" := "prometheus" ]};
     dAnnotations := annotations ∪ built;
     dSpec :=
       {| dsReplicas := Some 1;
          dsSelector := {[ "app" := "prometheus"; "prometheus" := nnName workloadU ]};
          dsTemplate :=
            {| tLabels := extra ∪ {[ "app" := "prometheus";
                                     "prometheus" := nnName workloadU ]};
               tAnnotations := built;
               tSpec := prometheusPodSpec operator jobU workloadU "350Mi" |} |} |}.

Definition withWorkload (d : Deployment StrMap) (w : World) : World :=
  stSet deploymentStore (<[stKey deploymentStore d := d]> (wDeployments w)) w.

(** Both clusters declared, nothing derived yet. *)
Definition worldAB : World := withClusters [clusterA; clusterB] emptyWorld.

(** Both clusters declared; the Storage Workload of [urlU] is stored with
    the referencing label of [clusterA] and with the revision annotation
    the Kubernetes deployment controller puts on a deployment. *)
Definition worldShared : World :=
  withWorkload
    (storedWorkloadU {[ "a" := "true" ]}
                     {[ "deployment.kubernetes.io/revision" := "1" ]})
    worldAB.

(** [clusterA] has been deleted, [clusterB] is declared; the Storage
    Workload of [urlU] carries the referencing labels of both. *)
Definition worldAfterDeleteA : World :=
  withWorkload
    (storedWorkloadU {[ "a" := "true"; "b" := "true" ]} ∅)
    (withClusters [clusterB] emptyWorld).

(** A cluster listing a job whose metadata has no completion time. *)
Definition clusterRunning : MetricsCluster :=
  {| mcNamespace := "dowser"; mcName := "c"; mcURLs := [urlV; urlU] |}.
Definition keyRunning : NamespacedName := ("dowser", "c").
Definition worldRunning : World := withClusters [clusterRunning] emptyWorld.

(** A cluster listing a job whose metadata does not decode. *)
Definition clusterUndecoded : MetricsCluster :=
  {| mcNamespace := "dowser"; mcName := "e"; mcURLs := [urlZ; urlU] |}.
Definition keyUndecoded : NamespacedName := ("dowser", "e").
Definition worldUndecoded : World := withClusters [clusterUndecoded] emptyWorld.

(** A cluster listing three jobs, the second of which has no archive. *)
Definition clusterThree : MetricsCluster :=
  {| mcNamespace := "dowser"; mcName := "d"; mcURLs := [urlU; urlX; urlW] |}.

(** [clusterB] alone is declared; the Storage Workload of [urlU] is
    stored as the operator builds it for [clusterB], with the revision
    annotation of the Kubernetes deployment controller. *)
Definition worldRevision : World :=
  withWorkload
    (storedWorkloadU {[ "b" := "true" ]}
                     {[ "deployment.kubernetes.io/revision" := "1" ]})
    (withClusters [clusterB] emptyWorld).

(** As [outside], but creating the Store Service of [clusterA] fails. *)
Definition outsideNoStoreService : Outside :=
  outsideFailing [CCreate KService ("dowser", "store-a")].

(** As [outside], but creating the Aggregation Service of [clusterA] fails. *)
Definition outsideNoQueryService : Outside :=
  outsideFailing [CCreate KService ("dowser", "query-a")].

Definition reconcileA : M unit := reconcileMetricsCluster lib outside operator keyA.
Definition reconcileB : M unit := reconcileMetricsCluster lib outside operator keyB.
End Demo.

(** ** Notions for the properties beyond the claims *)

(** Reading back what [%x] prints: a hexadecimal digit, a pair of digits, a
    string of pairs. *)
Definition unhexDigit (c : Ascii.ascii) : option N :=
  let n := N_of_ascii c in
  (if (48 <=? n) && (n <=? 57) then Some (n - 48)
   else if (97 <=? n) && (n <=? 102) then Some (n - 87)
   else None)%N.

Definition unhexByte (hi lo : Ascii.ascii) : option byte :=
  match unhexDigit hi, unhexDigit lo with
  | Some h, Some l => Byte.of_N (16 * h + l)
  | _, _ => None
  end.

Fixpoint unhexBytes (s : string) : option (list byte) :=
  match s with
  | EmptyString => Some []
  | String hi (String lo s') =>
      match unhexByte hi lo, unhexBytes s' with
      | Some b, Some bs => Some (b :: bs)
      | _, _ => None
      end
  | String _ EmptyString => None
  end.

(** The characters of a DNS-1123 label: lower-case letters, digits and [-]. *)
Definition isLabelChar (c : Ascii.ascii) : bool :=
  let n := N_of_ascii c in
  ((97 <=? n) && (n <=? 122) || (48 <=? n) && (n <=? 57) || (n =? 45))%N.

Fixpoint allLabelChars (s : string) : bool :=
  match s with
  | EmptyString => true
  | String c s' => isLabelChar c && allLabelChars s'
  end.

(** What a run may do.  [callsAllowed allowed s s']: the API calls issued
    from [s] to [s'] all satisfy [allowed].  [framed allowed F G s s']: in
    addition the stored objects of [s] and [s'] are related by [F] and the
    caches by [G]. *)
Definition callsAllowed (allowed : Call → bool) (s s' : State) : Prop :=
  ∃ cs, calls s' = calls s ++ cs ∧ forallb allowed cs = true.

Definition framed (allowed : Call → bool) (F : World → World → Prop)
    (G : option StrMap → option StrMap → Prop) (s s' : State) : Prop :=
  callsAllowed allowed s s' ∧ F (world s) (world s')
  ∧ G (prometheusURLs s) (prometheusURLs s').

(** A read of any kind, or the delete of a deployment. *)
Definition readOrDeleteDeployment (c : Call) : bool :=
  match c with
  | CGet _ _ | CList _ _ => true
  | CDelete KDeployment _ => true
  | _ => false
  end.

(** Nothing is stored in [w'] that is not stored, and the same, in [w];
    clusters, services and routes are those of [w]. *)
Definition onlyDeploymentsRemoved (w w' : World) : Prop :=
  wClusters w' = wClusters w ∧ wServices w' = wServices w ∧
  wRoutes w' = wRoutes w ∧ wDeployments w' ⊆ wDeployments w.

(** Any call but a delete and but a write of a Declared Cluster. *)
Definition noDeleteNoClusterWrite (c : Call) : bool :=
  match c with
  | CDelete _ _ => false
  | CCreate KMetricsCluster _ | CUpdate KMetricsCluster _ => false
  | _ => true
  end.

(** The clusters of [w'] are those of [w]; every service and route of [w] is
    stored unchanged in [w']; every deployment stored in [w] is still
    stored in [w'], possibly updated. *)
Definition nothingRemoved (w w' : World) : Prop :=
  wClusters w' = wClusters w ∧ wServices w ⊆ wServices w' ∧
  wRoutes w ⊆ wRoutes w' ∧ dom (wDeployments w) ⊆ dom (wDeployments w').

(** Every entry of the cache [c] is an entry of [c']. *)
Definition cacheGrows (c c' : option StrMap) : Prop :=
  cacheEntries c ⊆ cacheEntries c'.

(** The object of sub-step [s] is stored. *)
Definition stepPresent (o : Operator) (cluster : MetricsCluster) (s : Step)
    (w : World) : Prop :=
  match s with
  | StoreService | QueryService => is_Some (wServices w !! stepName o cluster s)
  | QueryDeployment => is_Some (wDeployments w !! stepName o cluster s)
  | QueryRoute => is_Some (wRoutes w !! stepName o cluster s)
  end.

(** The [Get] of each of the four sub-steps, in source order. *)
Definition stepGets (o : Operator) (cluster : MetricsCluster) : list Call :=
  (λ s, CGet (stepKind s) (stepName o cluster s))
    <$> [StoreService; QueryDeployment; QueryService; QueryRoute].

(** What operator.go:280-285 does with the object [desired]. *)
Definition createWorkload (E : Outside) (desired : Deployment StrMap) : M unit :=
  let* err := client_Create E deploymentStore desired in
  match err with
  | Success _ => ret tt
  | _ => raise "couldn't create deployment for url"
  end.

(** Every stored deployment is stored under its own namespace and name. *)
Definition wellKeyed (w : World) : Prop :=
  ∀ k d, wDeployments w !! k = Some d → (dNamespace d, dName d) = k.

(** What the loop of operator.go:214-224 makes of a deployment, for the
    label key [n]. *)
Definition strippedOf (n : string) (d : Deployment StrMap) : Deployment StrMap :=
  if hasKey (tLabels (dsTemplate (dSpec d))) n then deleteTemplateLabel n d else d.

(** The operator of the examples with an earlier aggregation image, and the
    world its ensure-existence phase leaves for cluster [a]. *)
Definition earlierOperator : Operator :=
  {| Namespace := Namespace Demo.operator;
     FetcherImage := FetcherImage Demo.operator;
     PrometheusImage := PrometheusImage Demo.operator;
     ThanosImage := "quay.io/thanos/thanos:v0.13.0";
     GCSStorageBaseURL := GCSStorageBaseURL Demo.operator;
     ProwBaseURL := ProwBaseURL Demo.operator;
     GCSPrefix := GCSPrefix Demo.operator;
     PrometheusMemory := PrometheusMemory Demo.operator |}.

Definition worldEarlier : World :=
  world (after (ensureDerived Demo.outside earlierOperator Demo.clusterA)
               (initState Demo.worldAB)).

(** * Properties *)

(** ** The monad *)

Lemma bind_Val {A B} (m : M A) (k : A -> M B) st a st' :
  m st = (Val a, st') → bind m k st = k a st'.
Proof. intros H. unfold bind. by rewrite H. Qed.

Lemma bind_Raise {A B} (m : M A) (k : A -> M B) st msg st' :
  m st = (Raise msg, st') → bind m k st = (Raise msg, st').
Proof. intros H. unfold bind. by rewrite H. Qed.

Lemma bind_Panicked {A B} (m : M A) (k : A -> M B) st st' :
  m st = (Panicked, st') → bind m k st = (Panicked, st').
Proof. intros H. unfold bind. by rewrite H. Qed.

Lemma run_eta {A} (m : M A) st : m st = (outcome m st, after m st).
Proof. unfold outcome, after. by destruct (m st). Qed.

Lemma append_empty_r (s : string) : s +:+ "" = s.
Proof.
  induction s as [|a s IH]; [done |].
  change (String a (s +:+ "") = String a s). by rewrite IH.
Qed.

Lemma callsDuring_withCalls {A} (m : M A) st cs :
  calls (after m st) = calls st ++ cs → callsDuring m st = cs.
Proof. intros H. unfold callsDuring. rewrite H. apply drop_app_length. Qed.

(** ** Naming *)

(** C9, as the code has it: the Store Service is named [store-] followed by
    the cluster's name, and the Aggregation Workload, the Aggregation Service
    and the External Route are all three named [query-] followed by the
    cluster's name.  The two prefixes differ, and so a Store Service and an
    Aggregation Service, the two derived objects of one kind, never share a
    name, whatever their clusters. *)
Theorem derived_names_by_prefix (o : Operator) (c c' : MetricsCluster) :
  thanosStoreServiceName o c = (Namespace o, "store-" +:+ mcName c) ∧
  thanosQueryDeploymentName o c = (Namespace o, "query-" +:+ mcName c) ∧
  thanosQueryServiceName o c = (Namespace o, "query-" +:+ mcName c) ∧
  thanosQueryRouteName o c = (Namespace o, "query-" +:+ mcName c) ∧
  "store-" ≠ "query-" ∧
  thanosStoreServiceName o c ≠ thanosQueryServiceName o c'.
Proof.
  unfold thanosStoreServiceName, thanosQueryDeploymentName,
    thanosQueryServiceName, thanosQueryRouteName.
  repeat split; discriminate.
Qed.

(** C9, as the spec states it, fails: the prefixes of the Aggregation
    Workload and of the Aggregation Service are the same. *)
Lemma prefixes_not_distinct : ¬ distinctPrefixes Demo.operator.
Proof.
  intros (p1 & p2 & p3 & p4 & _ & H2 & H3 & _ & _ & _ & _ & Hne & _).
  specialize (H2 zeroMetricsCluster). specialize (H3 zeroMetricsCluster).
  unfold thanosQueryDeploymentName, thanosQueryServiceName, nnName in H2, H3.
  simpl in H2, H3. rewrite !append_empty_r in H2, H3.
  apply Hne. by rewrite <- H2, <- H3.
Qed.

(** ** The memoising resolver *)

(** C8: on a cache hit the resolver returns the cached archive URL and
    leaves the whole state as it was, the log of network lookups included;
    on a miss with a successful lookup it returns the archive URL found, with
    the cache extended by that entry and one lookup logged; on a miss with a
    failed lookup it returns the error and the cache has the entries it
    had. *)
Theorem findPrometheusTarURL_memoises (E : Outside) (jobURL gcsPrefix : string)
    (st : State) :
  let m := findPrometheusTarURL E jobURL gcsPrefix in
  match cacheEntries (prometheusURLs st) !! jobURL with
  | Some cached =>
      outcome m st = Val (inl cached) ∧ after m st = st
  | None =>
      match getTarURLFromProw E jobURL gcsPrefix with
      | inl tarURL =>
          outcome m st = Val (inl tarURL) ∧
          prometheusURLs (after m st)
            = Some (<[jobURL := tarURL]> (cacheEntries (prometheusURLs st))) ∧
          lookups (after m st) = lookups st ++ [jobURL]
      | inr err =>
          outcome m st = Val (inr err) ∧
          cacheEntries (prometheusURLs (after m st))
            = cacheEntries (prometheusURLs st) ∧
          lookups (after m st) = lookups st ++ [jobURL]
      end
  end.
Proof.
  destruct st as [w cs c ls h].
  unfold outcome, after, findPrometheusTarURL, bind, getPrometheusURLs,
    setPrometheusURLs, logLookup, ret, cacheEntries; simpl.
  destruct c as [urls|]; simpl.
  - destruct (urls !! jobURL) as [cached|] eqn:Hhit; simpl; [done |].
    destruct (getTarURLFromProw E jobURL gcsPrefix); simpl; done.
  - rewrite lookup_empty.
    destruct (getTarURLFromProw E jobURL gcsPrefix); simpl; done.
Qed.

(** ** The API client *)

(** Reduce the projections of the state records a run has built. *)
Tactic Notation "state_simpl" :=
  cbv beta iota delta [world calls prometheusURLs lookups heap withCalls withWorld].
Tactic Notation "state_simpl" "in" hyp(H) :=
  cbv beta iota delta [world calls prometheusURLs lookups heap withCalls withWorld] in H.

Lemma world_withCalls cs st : world (withCalls cs st) = world st.
Proof. done. Qed.
Lemma world_withWorld w st : world (withWorld w st) = w.
Proof. done. Qed.
Lemma calls_withCalls cs st : calls (withCalls cs st) = calls st ++ cs.
Proof. done. Qed.
Lemma calls_withWorld w st : calls (withWorld w st) = calls st.
Proof. done. Qed.
Lemma prometheusURLs_withCalls cs st :
  prometheusURLs (withCalls cs st) = prometheusURLs st.
Proof. done. Qed.
Lemma prometheusURLs_withWorld w st :
  prometheusURLs (withWorld w st) = prometheusURLs st.
Proof. done. Qed.
Lemma heap_withCalls cs st : heap (withCalls cs st) = heap st.
Proof. done. Qed.
Lemma heap_withWorld w st : heap (withWorld w st) = heap st.
Proof. done. Qed.

Create Rewrite HintDb state.
#[global] Hint Rewrite world_withCalls world_withWorld calls_withCalls
  calls_withWorld prometheusURLs_withCalls prometheusURLs_withWorld
  heap_withCalls heap_withWorld : state.

(** Reduce the accessors of the four object stores. *)
Ltac store_simpl :=
  cbv beta iota delta [stKind stGet stSet stKey
                       clusterStore deploymentStore serviceStore routeStore].

Section ClientFacts.
Context (E : Outside) {A : Type} (S : Store A).

Lemma client_Get_run key st :
  client_Get E S key st =
    (Val (if apiFault E (CGet (stKind S) key) then OtherErr
          else match stGet S (world st) !! key with
               | Some a => Success a
               | None => NotFoundErr
               end),
     withCalls [CGet (stKind S) key] st).
Proof.
  destruct st as [w cs c ls h].
  unfold client_Get, bind, logCall, getWorld, ret; state_simpl.
  destruct (apiFault E _); [done |].
  by destruct (stGet S w !! key).
Qed.

Lemma client_List_run ns st :
  client_List E S ns st =
    (Val (if apiFault E (CList (stKind S) ns) then OtherErr
          else Success (storedIn S ns (world st))),
     withCalls [CList (stKind S) ns] st).
Proof.
  destruct st as [w cs c ls h].
  unfold client_List, bind, logCall, getWorld, ret; state_simpl.
  by destruct (apiFault E _).
Qed.

Lemma client_Create_run obj st :
  client_Create E S obj st =
    let st1 := withCalls [CCreate (stKind S) (stKey S obj)] st in
    if apiFault E (CCreate (stKind S) (stKey S obj)) then (Val OtherErr, st1)
    else match stGet S (world st) !! stKey S obj with
         | Some _ => (Val OtherErr, st1)
         | None =>
             (Val (Success tt),
              withWorld (stSet S (<[stKey S obj := obj]> (stGet S (world st))) (world st)) st1)
         end.
Proof.
  destruct st as [w cs c ls h].
  unfold client_Create, bind, logCall, getWorld, setWorld, ret; state_simpl.
  destruct (apiFault E _); [done |].
  by destruct (stGet S w !! stKey S obj).
Qed.

Lemma client_Update_run obj st :
  client_Update E S obj st =
    let st1 := withCalls [CUpdate (stKind S) (stKey S obj)] st in
    if apiFault E (CUpdate (stKind S) (stKey S obj)) then (Val OtherErr, st1)
    else match stGet S (world st) !! stKey S obj with
         | None => (Val NotFoundErr, st1)
         | Some _ =>
             (Val (Success tt),
              withWorld (stSet S (<[stKey S obj := obj]> (stGet S (world st))) (world st)) st1)
         end.
Proof.
  destruct st as [w cs c ls h].
  unfold client_Update, bind, logCall, getWorld, setWorld, ret; state_simpl.
  destruct (apiFault E _); [done |].
  by destruct (stGet S w !! stKey S obj).
Qed.

Lemma client_Delete_run obj st :
  client_Delete E S obj st =
    let st1 := withCalls [CDelete (stKind S) (stKey S obj)] st in
    if apiFault E (CDelete (stKind S) (stKey S obj)) then (Val OtherErr, st1)
    else match stGet S (world st) !! stKey S obj with
         | None => (Val NotFoundErr, st1)
         | Some _ =>
             (Val (Success tt),
              withWorld (stSet S (delete (stKey S obj) (stGet S (world st))) (world st)) st1)
         end.
Proof.
  destruct st as [w cs c ls h].
  unfold client_Delete, bind, logCall, getWorld, setWorld, ret; state_simpl.
  destruct (apiFault E _); [done |].
  by destruct (stGet S w !! stKey S obj).
Qed.
End ClientFacts.

Lemma callsDuring_run {A} (m : M A) st r cs w :
  m st = (r, withWorld w (withCalls cs st)) → callsDuring m st = cs.
Proof.
  intros H. apply callsDuring_withCalls. unfold after. by rewrite H.
Qed.

Lemma callsDuring_run_calls {A} (m : M A) st r cs :
  m st = (r, withCalls cs st) → callsDuring m st = cs.
Proof.
  intros H. apply callsDuring_withCalls. unfold after. by rewrite H.
Qed.

Lemma withCalls_withCalls cs1 cs2 st :
  withCalls cs2 (withCalls cs1 st) = withCalls (cs1 ++ cs2) st.
Proof. unfold withCalls; simpl. by rewrite <- app_assoc. Qed.

(** ** The derived-workload reconciler *)

Lemma isReferenced_spec (clusters : list MetricsCluster) (d : Deployment StrMap) :
  existsb (λ cluster, hasKey (tLabels (dsTemplate (dSpec d))) (mcName cluster)) clusters = true
  ↔ referencedBy clusters d.
Proof.
  unfold referencedBy, hasKey. rewrite existsb_exists. split.
  - intros (c & Hin & Hc). exists c. split; [by apply list_elem_of_In |].
    by apply bool_decide_eq_true in Hc.
  - intros (c & Hin & Hc). exists c. split; [by apply list_elem_of_In |].
    by apply bool_decide_eq_true.
Qed.

(** What [reconcilePrometheusDeployment] does once the clusters are listed. *)
Lemma reconcilePrometheusDeployment_run (E : Outside) (o : Operator)
    (d : Deployment StrMap) (st : State) :
  apiFault E (CList KMetricsCluster (Namespace o)) = false →
  let listed := storedIn clusterStore (Namespace o) (world st) in
  let key := (dNamespace d, dName d) in
  reconcilePrometheusDeployment E o d st =
    if existsb (λ cluster, hasKey (tLabels (dsTemplate (dSpec d))) (mcName cluster)) listed
    then (Val tt, withCalls [CList KMetricsCluster (Namespace o)] st)
    else if apiFault E (CDelete KDeployment key)
    then (Raise "couldn't delete deployment",
          withCalls [CList KMetricsCluster (Namespace o); CDelete KDeployment key] st)
    else (Val tt,
          withWorld (stSet deploymentStore (delete key (wDeployments (world st))) (world st))
            (withCalls [CList KMetricsCluster (Namespace o); CDelete KDeployment key] st)).
Proof.
  intros Hlist. cbv zeta.
  unfold reconcilePrometheusDeployment.
  erewrite bind_Val; [| apply client_List_run].
  store_simpl. rewrite Hlist.
  destruct (existsb _ _); simpl; [done |].
  unfold bind. rewrite client_Delete_run. store_simpl. cbv zeta.
  autorewrite with state. rewrite withCalls_withCalls. simpl app.
  destruct (apiFault E (CDelete KDeployment _)); [done |].
  destruct (wDeployments (world st) !! (dNamespace d, dName d)) eqn:Hd; [done |].
  unfold ret. rewrite delete_id by done.
  by destruct st as [[] ? ? ? ?].
Qed.



(** C10: a deployment that is fetched and whose labels do not map [app] to
    [prometheus] is left alone by the derived-workload reconciler: the run
    returns success having issued the one [Get] and nothing else, so the
    store is as it was.  The Aggregation Workload of a cluster, as
    [thanosQueryDeploymentManifest] builds it, is such a deployment. *)
Theorem reconcileDeployment_leaves_other_deployments
    (E : Outside) (o : Operator) (request : NamespacedName)
    (d : Deployment StrMap) (cluster : MetricsCluster) (st : State) :
  apiFault E (CGet KDeployment request) = false →
  wDeployments (world st) !! request = Some d →
  dLabels d !! "app" ≠ Some "prometheus" ∨ d = thanosQueryDeploymentManifest o cluster →
  reconcileDeployment E o request st = (Val tt, withCalls [CGet KDeployment request] st) ∧
  world (after (reconcileDeployment E o request) st) = world st ∧
  writes (callsDuring (reconcileDeployment E o request) st) = [].
Proof.
  intros Hget Hd Hlabel.
  assert (dLabels d !! "app" ≠ Some "prometheus") as Hne.
  { destruct Hlabel as [H | ->]; [done |].
    unfold thanosQueryDeploymentManifest; simpl.
    rewrite lookup_singleton_eq. discriminate. }
  assert (reconcileDeployment E o request st
          = (Val tt, withCalls [CGet KDeployment request] st)) as Hrun.
  { unfold reconcileDeployment.
    erewrite bind_Val; [| apply client_Get_run].
    store_simpl. rewrite Hget, Hd.
    destruct (dLabels d !! "app") as [value|] eqn:Happ; [| done].
    case_bool_decide as Hv; [| done].
    subst value. done. }
  split; [done |].
  rewrite (callsDuring_run_calls _ _ _ _ Hrun).
  unfold after. rewrite Hrun. done.
Qed.

(** C10 at an example: the Aggregation Workload of cluster [a], once
    created, is not touched when it is delivered. *)
Lemma reconcileDeployment_leaves_other_deployments_witness :
  let d := thanosQueryDeploymentManifest Demo.operator Demo.clusterA in
  let st := initState (Demo.withWorkload d Demo.worldAB) in
  let request := thanosQueryDeploymentName Demo.operator Demo.clusterA in
  apiFault Demo.outside (CGet KDeployment request) = false ∧
  wDeployments (world st) !! request = Some d ∧
  world (after (reconcileDeployment Demo.outside Demo.operator request) st) = world st ∧
  writes (callsDuring (reconcileDeployment Demo.outside Demo.operator request) st) = [].
Proof.
  intros d st request.
  assert (wDeployments (world st) !! request = Some d) as Hd
    by (vm_compute; reflexivity).
  split; [reflexivity |]. split; [exact Hd |].
  exact (proj2 (reconcileDeployment_leaves_other_deployments
                  Demo.outside Demo.operator request d Demo.clusterA st
                  eq_refl Hd (or_intror eq_refl))).
Defined.

(** ** Relating the states of a run *)

Section Preservation.
Context (P : State → State → Prop).
Hypothesis P_refl : ∀ st, P st st.
Hypothesis P_trans : ∀ s1 s2 s3, P s1 s2 → P s2 s3 → P s1 s3.

Lemma preserves_ret {A} (a : A) : Preserves P (ret a).
Proof. intros st. apply P_refl. Qed.

Lemma preserves_raise {A} msg : Preserves P (raise (A:=A) msg).
Proof. intros st. apply P_refl. Qed.

Lemma preserves_panic {A} : Preserves P (panic (A:=A)).
Proof. intros st. apply P_refl. Qed.

Lemma preserves_bind {A B} (m : M A) (k : A → M B) :
  Preserves P m → (∀ a, Preserves P (k a)) → Preserves P (bind m k).
Proof.
  intros Hm Hk st. specialize (Hm st). unfold after, bind in *.
  destruct (m st) as [[a | msg |] st1]; simpl in *; [| done | done].
  eapply P_trans; [exact Hm |]. apply Hk.
Qed.

Lemma preserves_forRange {A} (xs : list A) (body : A → M unit) :
  (∀ x, Preserves P (body x)) → Preserves P (forRange xs body).
Proof.
  intros Hbody. induction xs as [|x xs IH]; simpl.
  - apply preserves_ret.
  - apply preserves_bind; [apply Hbody | intros _; exact IH].
Qed.
End Preservation.

Lemma preserves_weaken {A} (P Q : State → State → Prop) (m : M A) :
  (∀ s s', P s s' → Q s s') → Preserves P m → Preserves Q m.
Proof. intros HPQ Hm st. apply HPQ, Hm. Qed.

Lemma agree_refl st : agree st st.
Proof. by repeat split. Qed.

Lemma agree_sym s1 s2 : agree s1 s2 → agree s2 s1.
Proof. intros (? & ? & ? & ?). by repeat split. Qed.

Lemma agree_trans s1 s2 s3 : agree s1 s2 → agree s2 s3 → agree s1 s3.
Proof.
  intros (? & ? & ? & ?) (? & ? & ? & ?). repeat split; congruence.
Qed.

Lemma respects_ret {A} (a : A) : Respects (ret a).
Proof. by intros s1 s2 H. Qed.

Lemma respects_raise {A} msg : Respects (raise (A:=A) msg).
Proof. by intros s1 s2 H. Qed.

Lemma respects_panic {A} : Respects (panic (A:=A)).
Proof. by intros s1 s2 H. Qed.

Lemma respects_bind {A B} (m : M A) (k : A → M B) :
  Respects m → (∀ a, Respects (k a)) → Respects (bind m k).
Proof.
  intros Hm Hk s1 s2 H. destruct (Hm s1 s2 H) as [Ho Ha].
  unfold outcome, after, bind in *.
  destruct (m s1) as [r1 t1], (m s2) as [r2 t2]; simpl in *. subst r2.
  destruct r1 as [a | msg |]; [| done | done].
  apply (Hk a t1 t2 Ha).
Qed.

Lemma respects_forRange {A} (xs : list A) (body : A → M unit) :
  (∀ x, Respects (body x)) → Respects (forRange xs body).
Proof.
  intros Hbody. induction xs as [|x xs IH]; simpl.
  - apply respects_ret.
  - apply respects_bind; [apply Hbody | intros _; exact IH].
Qed.

(** The primitives other than the cache accesses read and write the world,
    the calls and the heap only. *)
Lemma respects_logCall c : Respects (logCall c).
Proof.
  intros s1 s2 (Hw & Hc & Hh & He). unfold outcome, after, logCall, agree; simpl.
  by rewrite Hc.
Qed.

Lemma respects_getWorld : Respects getWorld.
Proof.
  intros s1 s2 (Hw & Hc & Hh & He). unfold outcome, after, getWorld, agree; simpl.
  by rewrite Hw.
Qed.

Lemma respects_setWorld w : Respects (setWorld w).
Proof.
  intros s1 s2 (Hw & Hc & Hh & He). by unfold outcome, after, setWorld, agree; simpl.
Qed.

Lemma respects_heapAlloc m : Respects (heapAlloc m).
Proof.
  intros s1 s2 (Hw & Hc & Hh & He). unfold outcome, after, heapAlloc, agree; simpl.
  by rewrite Hh.
Qed.

Lemma respects_heapStore r k v : Respects (heapStore r k v).
Proof.
  intros s1 s2 (Hw & Hc & Hh & He). unfold outcome, after, heapStore, agree; simpl.
  by rewrite Hh.
Qed.

Lemma respects_getHeap : Respects getHeap.
Proof.
  intros s1 s2 (Hw & Hc & Hh & He). unfold outcome, after, getHeap, agree; simpl.
  by rewrite Hh.
Qed.

Create HintDb respects discriminated.
#[global] Hint Resolve respects_ret respects_raise respects_panic
  respects_logCall respects_getWorld respects_setWorld respects_heapAlloc
  respects_heapStore respects_getHeap : respects.

(** Walk down a monadic term, one construct at a time. *)
Ltac respects_walk :=
  repeat first
    [ solve [auto with respects]
    | apply respects_bind; [| intros ?]
    | match goal with
      | |- Respects (if ?b then _ else _) => destruct b
      | |- Respects (match ?x with _ => _ end) => destruct x
      end ].

Section ClientRespects.
Context (E : Outside) {A : Type} (S : Store A).

Lemma respects_client_Get key : Respects (client_Get E S key).
Proof. unfold client_Get. respects_walk. Qed.

Lemma respects_client_Create obj : Respects (client_Create E S obj).
Proof. unfold client_Create. respects_walk. Qed.

Lemma respects_client_Update obj : Respects (client_Update E S obj).
Proof. unfold client_Update. respects_walk. Qed.
End ClientRespects.

#[global] Hint Resolve respects_client_Get respects_client_Create
  respects_client_Update : respects.

Lemma respects_loadDeployment d : Respects (loadDeployment d).
Proof. unfold loadDeployment. respects_walk. Qed.

Lemma respects_prometheusDeploymentManifest L o job :
  Respects (prometheusDeploymentManifest L o job).
Proof. unfold prometheusDeploymentManifest. cbv zeta. respects_walk. Qed.

#[global] Hint Resolve respects_loadDeployment
  respects_prometheusDeploymentManifest : respects.

(** The resolver reads the cache through its entries only. *)
Lemma respects_findPrometheusTarURL E jobURL gcsPrefix :
  Respects (findPrometheusTarURL E jobURL gcsPrefix).
Proof.
  intros [w1 cs1 c1 ls1 h1] [w2 cs2 c2 ls2 h2] (Hw & Hc & Hh & He).
  simpl in Hw, Hc, Hh, He. subst w2 cs2 h2.
  unfold outcome, after, agree, findPrometheusTarURL, bind, getPrometheusURLs,
    setPrometheusURLs, logLookup, ret; simpl.
  assert (match c1 with None => ∅ | Some m => m end
          = match c2 with None => ∅ | Some m => m end) as -> by exact He.
  destruct (_ !! jobURL); simpl; [done |].
  destruct (getTarURLFromProw E jobURL gcsPrefix); simpl; done.
Qed.

#[global] Hint Resolve respects_findPrometheusTarURL : respects.

Lemma respects_reconcileURL L E o cluster url :
  Respects (reconcileURL L E o cluster url).
Proof.
  unfold reconcileURL. cbv zeta.
  destruct (http_Get E _) as [[prowJob decodeFailed]|]; respects_walk.
Qed.

Lemma respects_reconcileURLs L E o cluster urls :
  Respects (reconcileURLs L E o cluster urls).
Proof. apply respects_forRange. intros url. apply respects_reconcileURL. Qed.

(** *** What a run leaves of the cache *)

Lemma sameCache_refl st : sameCache st st.
Proof. done. Qed.

Lemma sameCache_trans s1 s2 s3 : sameCache s1 s2 → sameCache s2 s3 → sameCache s1 s3.
Proof. unfold sameCache. congruence. Qed.

Lemma uncachedStays_refl url st : uncachedStays url st st.
Proof. by intros H. Qed.

Lemma uncachedStays_trans url s1 s2 s3 :
  uncachedStays url s1 s2 → uncachedStays url s2 s3 → uncachedStays url s1 s3.
Proof. unfold uncachedStays. auto. Qed.

Lemma sameCache_uncachedStays url s s' : sameCache s s' → uncachedStays url s s'.
Proof. unfold sameCache, uncachedStays, uncached. by intros ->. Qed.

Create HintDb cache discriminated.

Lemma sameCache_logCall c : Preserves sameCache (logCall c).
Proof. by intros st. Qed.
Lemma sameCache_getWorld : Preserves sameCache getWorld.
Proof. by intros st. Qed.
Lemma sameCache_setWorld w : Preserves sameCache (setWorld w).
Proof. by intros st. Qed.
Lemma sameCache_heapAlloc m : Preserves sameCache (heapAlloc m).
Proof. by intros st. Qed.
Lemma sameCache_heapStore r k v : Preserves sameCache (heapStore r k v).
Proof. by intros st. Qed.
Lemma sameCache_getHeap : Preserves sameCache getHeap.
Proof. by intros st. Qed.
Lemma sameCache_ret {A} (a : A) : Preserves sameCache (ret a).
Proof. by intros st. Qed.
Lemma sameCache_raise {A} msg : Preserves sameCache (raise (A:=A) msg).
Proof. by intros st. Qed.
Lemma sameCache_panic {A} : Preserves sameCache (panic (A:=A)).
Proof. by intros st. Qed.

#[global] Hint Resolve sameCache_logCall sameCache_getWorld sameCache_setWorld
  sameCache_heapAlloc sameCache_heapStore sameCache_getHeap sameCache_ret
  sameCache_raise sameCache_panic : cache.

Ltac sameCache_walk :=
  repeat first
    [ solve [auto with cache]
    | apply (preserves_bind sameCache sameCache_trans); [| intros ?]
    | match goal with
      | |- Preserves _ (if ?b then _ else _) => destruct b
      | |- Preserves _ (match ?x with _ => _ end) => destruct x
      end ].

Section ClientCache.
Context (E : Outside) {A : Type} (S : Store A).

Lemma sameCache_client_Get key : Preserves sameCache (client_Get E S key).
Proof. unfold client_Get. sameCache_walk. Qed.

Lemma sameCache_client_Create obj : Preserves sameCache (client_Create E S obj).
Proof. unfold client_Create. sameCache_walk. Qed.

Lemma sameCache_client_Update obj : Preserves sameCache (client_Update E S obj).
Proof. unfold client_Update. sameCache_walk. Qed.
End ClientCache.

Lemma sameCache_loadDeployment d : Preserves sameCache (loadDeployment d).
Proof. unfold loadDeployment. sameCache_walk. Qed.

Lemma sameCache_prometheusDeploymentManifest L o job :
  Preserves sameCache (prometheusDeploymentManifest L o job).
Proof. unfold prometheusDeploymentManifest. cbv zeta. sameCache_walk. Qed.

#[global] Hint Resolve sameCache_client_Get sameCache_client_Create
  sameCache_client_Update sameCache_loadDeployment
  sameCache_prometheusDeploymentManifest : cache.

(** The resolver adds an entry for the URL it is asked about, and only when
    the lookup succeeds. *)
Lemma uncachedStays_findPrometheusTarURL E url jobURL gcsPrefix :
  (jobURL = url → ∃ err, getTarURLFromProw E jobURL gcsPrefix = inr err) →
  Preserves (uncachedStays url) (findPrometheusTarURL E jobURL gcsPrefix).
Proof.
  intros Hfail [w cs c ls h]. unfold uncachedStays, uncached, cacheEntries.
  unfold after, findPrometheusTarURL, bind, getPrometheusURLs,
    setPrometheusURLs, logLookup, ret; simpl.
  intros Hu.
  assert (match c with None => ∅ | Some m => m end = default ∅ c) as Hc
    by (by destruct c).
  rewrite Hc.
  destruct (default ∅ c !! jobURL) eqn:Hhit; simpl; [done |].
  destruct (getTarURLFromProw E jobURL gcsPrefix) as [tarURL | err] eqn:Htar;
    simpl; [| done].
  destruct (decide (jobURL = url)) as [-> | Hne].
  - destruct (Hfail eq_refl) as [err Herr]. congruence.
  - by rewrite lookup_insert_ne.
Qed.

Lemma uncachedStays_reconcileURL L E o cluster url jobURL :
  (jobURL = url → ∃ err, getTarURLFromProw E jobURL (GCSPrefix o) = inr err) →
  Preserves (uncachedStays url) (reconcileURL L E o cluster jobURL).
Proof.
  intros Hfail. unfold reconcileURL. cbv zeta.
  destruct (http_Get E _) as [[prowJob decodeFailed]|];
    [| apply preserves_ret, uncachedStays_refl].
  apply (preserves_bind _ (uncachedStays_trans url));
    [by apply uncachedStays_findPrometheusTarURL |].
  intros found.
  apply (preserves_weaken sameCache); [apply sameCache_uncachedStays |].
  sameCache_walk.
Qed.

(** ** Partial failure of metadata resolution *)

(** A job URL whose metadata resolution fails is passed over: the loop body
    returns without an API call and without touching the stored objects. *)
Lemma reconcileURL_skips L E o cluster url st :
  resolutionFails L E o url st →
  outcome (reconcileURL L E o cluster url) st = Val tt ∧
  agree (after (reconcileURL L E o cluster url) st) st.
Proof.
  intros [Hhttp | [Hu [err Herr]]]; unfold reconcileURL; cbv zeta.
  - rewrite Hhttp. split; [done | apply agree_refl].
  - destruct (http_Get E _) as [[prowJob decodeFailed]|];
      [| split; [done | apply agree_refl]].
    destruct st as [w cs c ls h].
    unfold uncached, cacheEntries in Hu. simpl in Hu.
    unfold outcome, after, agree, findPrometheusTarURL, bind, getPrometheusURLs,
      setPrometheusURLs, logLookup, ret, cacheEntries; simpl.
    assert (match c with Some m => m | None => ∅ end = default ∅ c) as ->
      by (by destruct c).
    rewrite Hu. simpl. rewrite Herr. simpl. done.
Qed.

Lemma resolutionFails_after L E o cluster url jobURL st :
  resolutionFails L E o url st →
  resolutionFails L E o url (after (reconcileURL L E o cluster jobURL) st).
Proof.
  intros [Hhttp | [Hu [err Herr]]]; [by left |]. right. split; [| by exists err].
  apply (uncachedStays_reconcileURL L E o cluster url jobURL); [| done].
  intros ->. by exists err.
Qed.



(** ** The create-if-absent sub-steps *)

Lemma bind_ret_tt (m : M unit) st : bind m (λ _, ret tt) st = m st.
Proof. unfold bind, ret. by destruct (m st) as [[[] | msg |] st1]. Qed.

Lemma forRange_app {A} (xs ys : list A) (body : A → M unit) st :
  forRange (xs ++ ys) body st
  = bind (forRange xs body) (λ _, forRange ys body) st.
Proof.
  revert st. induction xs as [|x xs IH]; intros st; simpl; [done |].
  unfold bind.
  destruct (body x st) as [[[] | msg |] st1]; [| done | done].
  by rewrite IH.
Qed.

(** The four sub-steps in source order. *)
Lemma ensureDerived_steps E o cluster st :
  ensureDerived E o cluster st
  = forRange [StoreService; QueryDeployment; QueryService; QueryRoute]
             (ensureStep E o cluster) st.
Proof.
  unfold ensureDerived; simpl. unfold bind.
  destruct (ensureStoreService E o cluster st) as [[[] | msg |] st1]; [| done | done].
  destruct (ensureQueryDeployment E o cluster st1) as [[[] | msg |] st2]; [| done | done].
  destruct (ensureQueryService E o cluster st2) as [[[] | msg |] st3]; [| done | done].
  by destruct (ensureQueryRoute E o cluster st3) as [[[] | msg |] st4].
Qed.

Lemma steps_split (s : Step) :
  [StoreService; QueryDeployment; QueryService; QueryRoute]
  = stepsBefore s ++ s :: stepsAfter s.
Proof. by destruct s. Qed.

(** A sub-step whose object is absent and whose create fails returns the
    error of that create, having issued its [Get] and its [Create]. *)
Lemma ensureStep_create_fails E o cluster s st :
  apiFault E (CGet (stepKind s) (stepName o cluster s)) = false →
  stepAbsent o cluster s (world st) →
  apiFault E (CCreate (stepKind s) (stepName o cluster s)) = true →
  ensureStep E o cluster s st
  = (Raise (createError s),
     withCalls [CGet (stepKind s) (stepName o cluster s);
                CCreate (stepKind s) (stepName o cluster s)] st).
Proof.
  intros Hget Habs Hcreate.
  destruct s;
    unfold ensureStep, ensureStoreService, ensureQueryDeployment,
      ensureQueryService, ensureQueryRoute;
    unfold stepAbsent, stepName, stepKind, thanosStoreServiceName,
      thanosQueryDeploymentName, thanosQueryServiceName, thanosQueryRouteName in *;
    cbv zeta in *;
    (erewrite bind_Val; [| apply client_Get_run]);
    store_simpl; rewrite Hget, Habs;
    unfold bind; rewrite client_Create_run; store_simpl; cbv zeta;
    unfold thanosStoreServiceManifest, thanosQueryDeploymentManifest,
      thanosQueryServiceManifest, thanosQueryRouteManifest,
      thanosStoreServiceName, thanosQueryDeploymentName,
      thanosQueryServiceName, thanosQueryRouteName;
    simpl; rewrite Hcreate; unfold raise;
    by rewrite withCalls_withCalls.
Qed.




(** ** The Storage Workload that exists already *)

(** The example Storage Workload is the manifest the operator builds. *)
Lemma storedWorkloadU_manifest :
  builtManifest Demo.lib Demo.operator Demo.jobU = Some (Demo.storedWorkloadU ∅ ∅).
Proof. vm_compute. reflexivity. Qed.

(** After the struct copy of operator.go:266 the spec of the fetched
    deployment is the desired spec, label map included, whatever the heap
    holds: the first comparison of operator.go:268 never finds a
    difference. *)
Lemma spec_comparison_vacuous (h : Heap) (observed desired : Deployment MapRef) :
  DeepEqual (snapSpec h (dSpec (withSpec observed (dSpec desired))))
            (snapSpec h (dSpec desired)) = true.
Proof. by apply bool_decide_eq_true. Qed.

Lemma DeepEqual_refl {A} `{EqDecision A} (x : A) : DeepEqual x x = true.
Proof. by apply bool_decide_eq_true. Qed.

Lemma heapRead_alloc (h : Heap) (m : StrMap) : heapRead (h ++ [m]) (length h) = m.
Proof. unfold heapRead. by rewrite list_lookup_middle. Qed.

Lemma heapRead_store (h : Heap) (m v : StrMap) :
  heapRead (<[length h := v]> (h ++ [m])) (length h) = v.
Proof.
  unfold heapRead. rewrite list_lookup_insert_eq; [done |].
  rewrite length_app. simpl. lia.
Qed.

(** The resolver returns what [resolved] says and touches the cache and the
    lookup log only. *)
Lemma findPrometheusTarURL_run E o url st :
  ∃ c ls,
    findPrometheusTarURL E url (GCSPrefix o) st
    = (Val (resolved E o url st),
       {| world := world st; calls := calls st; prometheusURLs := c;
          lookups := ls; heap := heap st |}).
Proof.
  destruct st as [w cs c ls h].
  unfold resolved, findPrometheusTarURL, bind, getPrometheusURLs,
    setPrometheusURLs, logLookup, ret, cacheEntries; simpl.
  assert (match c with Some m => m | None => ∅ end = default ∅ c) as ->
    by (by destruct c).
  destruct (default ∅ c !! url); simpl; [by eauto |].
  destruct (getTarURLFromProw E url (GCSPrefix o)); simpl; by eauto.
Qed.

(** When the Storage Workload of a job URL is stored already, the loop body
    fetches it and then either does nothing more, or updates it: it updates
    exactly when the metadata labels or annotations of the stored workload
    differ from the desired ones, whatever the stored spec is, and the object
    it writes is the stored one with its whole spec replaced by the desired
    spec, whose pod-template labels are those of the manifest and the label
    of the cluster being reconciled. *)
Lemma reconcileURL_existing
    (L : GoLib) (E : Outside) (o : Operator) (cluster : MetricsCluster)
    (url : string) (st : State) (prowJob : ProwJob) (decodeFailed : bool)
    (tarURL : string) (completionTime : Time) (memory : Quantity)
    (observed : Deployment StrMap) :
  let job := {| jProwJob := prowJob; PrometheusTarURL := tarURL |} in
  let name := prometheusDeploymentName L o job in
  let desired := desiredWorkload L o cluster job completionTime memory in
  http_Get E (strings_ReplaceAll L url (ProwBaseURL o) (GCSStorageBaseURL o)
              +:+ "/prowjob.json") = Some (prowJob, decodeFailed) →
  resolved E o url st = inl tarURL →
  apiFault E (CGet KDeployment name) = false →
  wDeployments (world st) !! name = Some observed →
  pjStatusCompletionTime prowJob = Some completionTime →
  resource_ParseQuantity L (PrometheusMemory o) = Some memory →
  ∃ st1,
    world st1 = world st ∧
    calls st1 = calls st ++ [CGet KDeployment name] ∧
    reconcileURL L E o cluster url st
    = if metadataDiffers observed desired
      then updateWorkload E (withSpec observed (dSpec desired)) st1
      else (Val tt, st1).
Proof.
  intros job name desired Hhttp Hresolved Hget Hobserved Hcompleted Hmemory.
  destruct (findPrometheusTarURL_run E o url st) as (c & ls & Hfind).
  rewrite Hresolved in Hfind.
  destruct st as [w cs c0 ls0 h]. state_simpl in Hfind. state_simpl in Hobserved.
  eexists. split; [| split]; cycle 2.
  unfold reconcileURL. cbv zeta. rewrite Hhttp. cbv beta iota.
  erewrite bind_Val; [| exact Hfind].
  cbv beta iota.
  fold job. fold name.
  erewrite bind_Val; [| apply client_Get_run].
  store_simpl. state_simpl. rewrite Hget, Hobserved.
  unfold loadDeployment, prometheusDeploymentManifest.
  change (pjStatusCompletionTime (jProwJob job)) with (pjStatusCompletionTime prowJob).
  rewrite Hcompleted, Hmemory.
  unfold bind, heapAlloc, heapStore, getHeap, ret. state_simpl.
  cbn [dSpec dsTemplate tLabels withSpec prometheusDeploymentObject
       dLabels dAnnotations fst snd].
  rewrite DeepEqual_refl, heapRead_alloc. simpl negb. rewrite orb_false_l.
  unfold snapDeployment, snapSpec, snapTemplate.
  cbn [dSpec dsTemplate tLabels tAnnotations tSpec dsReplicas dsSelector
       dNamespace dName dLabels dAnnotations withSpec].
  rewrite heapRead_store.
  unfold metadataDiffers, updateWorkload, desired, desiredWorkload,
    prometheusDeploymentObject, withSpec, bind.
  cbn [dSpec dsTemplate tLabels tAnnotations tSpec dsReplicas dsSelector
       dNamespace dName dLabels dAnnotations].
  destruct (_ || _); reflexivity.
  - reflexivity.
  - reflexivity.
Qed.

(** With the stored metadata as desired, the loop body writes nothing: the
    label of the cluster being reconciled is not added to a workload that
    lacks it. *)
Lemma existing_workload_untouched
    (L : GoLib) (E : Outside) (o : Operator) (cluster : MetricsCluster)
    (url : string) (st : State) (prowJob : ProwJob) (decodeFailed : bool)
    (tarURL : string) (completionTime : Time) (memory : Quantity)
    (observed : Deployment StrMap) :
  let job := {| jProwJob := prowJob; PrometheusTarURL := tarURL |} in
  let name := prometheusDeploymentName L o job in
  let desired := desiredWorkload L o cluster job completionTime memory in
  http_Get E (strings_ReplaceAll L url (ProwBaseURL o) (GCSStorageBaseURL o)
              +:+ "/prowjob.json") = Some (prowJob, decodeFailed) →
  resolved E o url st = inl tarURL →
  apiFault E (CGet KDeployment name) = false →
  wDeployments (world st) !! name = Some observed →
  pjStatusCompletionTime prowJob = Some completionTime →
  resource_ParseQuantity L (PrometheusMemory o) = Some memory →
  metadataDiffers observed desired = false →
  outcome (reconcileURL L E o cluster url) st = Val tt ∧
  world (after (reconcileURL L E o cluster url) st) = world st ∧
  callsDuring (reconcileURL L E o cluster url) st = [CGet KDeployment name].
Proof.
  intros job name desired Hhttp Hresolved Hget Hobserved Hcompleted Hmemory Hsame.
  destruct (reconcileURL_existing L E o cluster url st prowJob decodeFailed
              tarURL completionTime memory observed
              Hhttp Hresolved Hget Hobserved Hcompleted Hmemory)
    as (st1 & Hw & Hc & Hrun).
  fold job name desired in Hrun. rewrite Hsame in Hrun.
  unfold callsDuring, outcome, after. rewrite Hrun. simpl.
  split; [done |]. split; [done |].
  rewrite Hc. apply drop_app_length.
Qed.

(** The object an update writes carries, on its pod template, the two labels
    of the manifest and the label of the cluster being reconciled, and no
    other: a referencing label of another cluster is not on it. *)
Lemma written_labels_forget_other_clusters
    (L : GoLib) (o : Operator) (cluster : MetricsCluster) (job : Job)
    (completionTime : Time) (memory : Quantity)
    (observed : Deployment StrMap) (k : string) :
  k ≠ mcName cluster → k ≠ "app" → k ≠ "prometheus" →
  tLabels (dsTemplate (dSpec
    (withSpec observed
       (dSpec (desiredWorkload L o cluster job completionTime memory))))) !! k
  = None.
Proof.
  intros Hc Happ Hprom. simpl. unfold prometheusTemplateLabels.
  rewrite lookup_insert_ne by done.
  rewrite lookup_insert_ne by done.
  by rewrite lookup_singleton_ne.
Qed.

(** An update leaves the metadata labels and annotations as they were: if
    they differed from the desired ones before, they differ after. *)
Lemma written_metadata_still_differs (observed desired : Deployment StrMap) :
  metadataDiffers (withSpec observed (dSpec desired)) desired
  = metadataDiffers observed desired.
Proof. done. Qed.

(** C1 does not hold of the code.  First run: clusters [a] and [b] both list
    [urlU] and nothing is derived yet; [a] is reconciled, then [b]; both
    runs succeed, the second issues no write on the Storage Workload, and
    the workload carries the label of [a] and not that of [b].  Second run:
    the workload is stored with the label of [a] and with a revision
    annotation; [b] is reconciled, the workload is updated, and it then
    carries the label of [b] and no longer that of [a]. *)
Theorem shared_workload_loses_reference :
  (outcome Demo.reconcileA (initState Demo.worldAB) = Val tt ∧
   outcome Demo.reconcileB (after Demo.reconcileA (initState Demo.worldAB)) = Val tt ∧
   writes (callsDuring Demo.reconcileB (after Demo.reconcileA (initState Demo.worldAB)))
   = [CCreate KService ("dowser", "store-b");
      CCreate KDeployment ("dowser", "query-b");
      CCreate KService ("dowser", "query-b");
      CCreate KRoute ("dowser", "query-b")] ∧
   templateLabel
     (world (after Demo.reconcileB (after Demo.reconcileA (initState Demo.worldAB))))
     Demo.workloadU "a" = Some "true" ∧
   templateLabel
     (world (after Demo.reconcileB (after Demo.reconcileA (initState Demo.worldAB))))
     Demo.workloadU "b" = None) ∧
  (templateLabel Demo.worldShared Demo.workloadU "a" = Some "true" ∧
   outcome Demo.reconcileB (initState Demo.worldShared) = Val tt ∧
   CUpdate KDeployment Demo.workloadU
     ∈ callsDuring Demo.reconcileB (initState Demo.worldShared) ∧
   templateLabel (world (after Demo.reconcileB (initState Demo.worldShared)))
     Demo.workloadU "a" = None ∧
   templateLabel (world (after Demo.reconcileB (initState Demo.worldShared)))
     Demo.workloadU "b" = Some "true").
Proof. vm_compute. repeat split. by repeat constructor. Qed.

(** C4 does not hold of the code.  Cluster [b] lists [urlU]; the Storage
    Workload of [urlU] is stored with the label of [b] and with the revision
    annotation of the deployment controller.  The first pass succeeds; the
    second pass, with nothing changed in between, updates the workload
    again. *)
Theorem second_pass_updates_again :
  outcome Demo.reconcileB (initState Demo.worldRevision) = Val tt ∧
  outcome Demo.reconcileB (after Demo.reconcileB (initState Demo.worldRevision)) = Val tt ∧
  writes (callsDuring Demo.reconcileB
            (after Demo.reconcileB (initState Demo.worldRevision)))
  = [CUpdate KDeployment Demo.workloadU].
Proof. vm_compute. repeat split. Qed.

(** ** The Declared Cluster that no longer exists *)

Lemma forRange_skip {A} (xs : list A) (body : A → M unit) st :
  (∀ x, x ∈ xs → body x = ret tt) → forRange xs body st = (Val tt, st).
Proof.
  revert st. induction xs as [|x xs IH]; intros st Hbody; simpl; [done |].
  unfold bind. rewrite (Hbody x) by left. unfold ret at 1.
  apply IH. intros y Hy. apply Hbody. by right.
Qed.

(** The label the not-found branch looks for is the one with the empty key,
    which no stored deployment of a cluster has: whatever the name in the
    key that was delivered, the run lists the deployments and updates
    none. *)
Lemma reconcileMetricsCluster_deleted_cluster
    (L : GoLib) (E : Outside) (o : Operator) (request : NamespacedName)
    (st : State) :
  apiFault E (CGet KMetricsCluster request) = false →
  wClusters (world st) !! request = None →
  apiFault E (CList KDeployment (Namespace o)) = false →
  (∀ d, d ∈ storedIn deploymentStore (Namespace o) (world st) →
        tLabels (dsTemplate (dSpec d)) !! "" = None) →
  reconcileMetricsCluster L E o request st
  = (Val tt,
     withCalls [CGet KMetricsCluster request; CList KDeployment (Namespace o)] st).
Proof.
  intros Hget Habsent Hlist Hlabels.
  unfold reconcileMetricsCluster. cbv zeta.
  erewrite bind_Val; [| apply client_Get_run].
  store_simpl. rewrite Hget, Habsent.
  unfold removeReferences.
  erewrite bind_Val; [| apply client_List_run].
  store_simpl. rewrite Hlist.
  rewrite withCalls_withCalls. simpl app.
  apply forRange_skip. intros d Hd.
  rewrite world_withCalls in Hd.
  unfold hasKey. simpl mcName.
  rewrite bool_decide_eq_false_2; [done |].
  rewrite (Hlabels d Hd). by intros [? ?].
Qed.

(** C2 does not hold of the code.  Cluster [a] has been deleted, cluster [b]
    is declared, and the Storage Workload carries the labels of both.  The
    key of [a] is delivered: the run lists the deployments and issues no
    update, and the workload still carries the label of [a]. *)
Theorem deleted_cluster_label_stays :
  wClusters Demo.worldAfterDeleteA !! Demo.keyA = None ∧
  templateLabel Demo.worldAfterDeleteA Demo.workloadU "a" = Some "true" ∧
  outcome Demo.reconcileA (initState Demo.worldAfterDeleteA) = Val tt ∧
  callsDuring Demo.reconcileA (initState Demo.worldAfterDeleteA)
  = [CGet KMetricsCluster Demo.keyA; CList KDeployment "dowser"] ∧
  templateLabel (world (after Demo.reconcileA (initState Demo.worldAfterDeleteA)))
    Demo.workloadU "a" = Some "true".
Proof. vm_compute. repeat split. Qed.

(** ** The job without a completion time *)

(** A job without a completion time makes the manifest builder panic. *)
Lemma prometheusDeploymentManifest_nil_completion L o job st :
  pjStatusCompletionTime (jProwJob job) = None →
  prometheusDeploymentManifest L o job st = (Panicked, st).
Proof. intros H. unfold prometheusDeploymentManifest. by rewrite H. Qed.

(** Once the archive URL of a job is resolved and the fetch of its Storage
    Workload does not fail, a job whose metadata has no completion time
    makes the loop body panic, whether the workload exists or not. *)
Lemma reconcileURL_panics_on_nil_completion
    (L : GoLib) (E : Outside) (o : Operator) (cluster : MetricsCluster)
    (url : string) (st : State) (prowJob : ProwJob) (decodeFailed : bool)
    (tarURL : string) :
  http_Get E (strings_ReplaceAll L url (ProwBaseURL o) (GCSStorageBaseURL o)
              +:+ "/prowjob.json") = Some (prowJob, decodeFailed) →
  resolved E o url st = inl tarURL →
  apiFault E (CGet KDeployment
                (prometheusDeploymentName L o
                   {| jProwJob := prowJob; PrometheusTarURL := tarURL |})) = false →
  pjStatusCompletionTime prowJob = None →
  outcome (reconcileURL L E o cluster url) st = Panicked.
Proof.
  intros Hhttp Hresolved Hget Hnil.
  destruct (findPrometheusTarURL_run E o url st) as (c & ls & Hfind).
  rewrite Hresolved in Hfind.
  unfold outcome, reconcileURL. cbv zeta. rewrite Hhttp. cbv beta iota.
  erewrite bind_Val; [| exact Hfind].
  cbv beta iota.
  erewrite bind_Val; [| apply client_Get_run].
  store_simpl. rewrite Hget.
  destruct (wDeployments _ !! _) as [observed|].
  - unfold loadDeployment, bind, heapAlloc, ret.
    by rewrite prometheusDeploymentManifest_nil_completion.
  - unfold bind. by rewrite prometheusDeploymentManifest_nil_completion.
Qed.

(** C7 does not hold of the code.  The cluster lists [urlV], whose metadata
    decodes without a completion time, and then [urlU]: the reconciliation
    panics while building the manifest of [urlV], and nothing is created.
    The same happens with [urlZ], whose metadata does not decode. *)
Theorem missing_completion_time_panics :
  ((pjStatusCompletionTime <$> (fst <$> Demo.httpGet
      "https://storage.googleapis.com/origin-ci-test/logs/e2e-aws/102/prowjob.json"))
   = Some None ∧
   outcome (reconcileMetricsCluster Demo.lib Demo.outside Demo.operator Demo.keyRunning)
           (initState Demo.worldRunning) = Panicked ∧
   writes (callsDuring
             (reconcileMetricsCluster Demo.lib Demo.outside Demo.operator Demo.keyRunning)
             (initState Demo.worldRunning)) = []) ∧
  (Demo.httpGet
     "https://storage.googleapis.com/origin-ci-test/logs/e2e-aws/106/prowjob.json"
   = Some (zeroProwJob, true) ∧
   outcome (reconcileMetricsCluster Demo.lib Demo.outside Demo.operator Demo.keyUndecoded)
           (initState Demo.worldUndecoded) = Panicked ∧
   writes (callsDuring
             (reconcileMetricsCluster Demo.lib Demo.outside Demo.operator Demo.keyUndecoded)
             (initState Demo.worldUndecoded)) = []).
Proof. vm_compute. repeat split. Qed.

(** * Properties beyond the claims *)

(** ** The name of a Storage Workload (operator.go:376-380) *)

Lemma unhexByte_hexByte (b : byte) :
  ∃ hi lo, hexByte b = String hi (String lo "") ∧ unhexByte hi lo = Some b.
Proof. destruct b; (do 2 eexists; split; reflexivity). Qed.

Lemma unhexBytes_hexBytes (bs : list byte) :
  unhexBytes (hexBytes bs) = Some bs.
Proof.
  induction bs as [|b bs IH]; [done |].
  destruct (unhexByte_hexByte b) as (hi & lo & Hb & Hun).
  change (hexBytes (b :: bs)) with (hexByte b +:+ hexBytes bs).
  rewrite Hb.
  change (String hi (String lo "") +:+ hexBytes bs)
    with (String hi (String lo (hexBytes bs))).
  simpl. by rewrite Hun, IH.
Qed.

Lemma hexBytes_inj (bs1 bs2 : list byte) :
  hexBytes bs1 = hexBytes bs2 → bs1 = bs2.
Proof.
  intros H. apply (f_equal unhexBytes) in H.
  rewrite !unhexBytes_hexBytes in H. by injection H.
Qed.

(** The hexadecimal text [%x] prints for a byte string reads back as
    that byte string, so two byte strings with the same text are equal. *)
Theorem hexBytes_round_trip (bs bs' : list byte) :
  unhexBytes (hexBytes bs) = Some bs ∧
  (hexBytes bs = hexBytes bs' → bs = bs').
Proof. split; [apply unhexBytes_hexBytes | apply hexBytes_inj]. Qed.

Lemma string_length_append (s1 s2 : string) :
  (String.length (s1 +:+ s2) = String.length s1 + String.length s2)%nat.
Proof.
  induction s1 as [|a s1 IH]; [done |].
  change (String a s1 +:+ s2) with (String a (s1 +:+ s2)).
  simpl. by rewrite IH.
Qed.

Lemma allLabelChars_append (s1 s2 : string) :
  allLabelChars (s1 +:+ s2) = allLabelChars s1 && allLabelChars s2.
Proof.
  induction s1 as [|a s1 IH]; [done |].
  change (String a s1 +:+ s2) with (String a (s1 +:+ s2)).
  simpl. by rewrite IH, andb_assoc.
Qed.

Lemma hexByte_shape (b : byte) :
  String.length (hexByte b) = 2%nat ∧ allLabelChars (hexByte b) = true.
Proof. destruct b; split; reflexivity. Qed.

Lemma hexBytes_shape (bs : list byte) :
  (String.length (hexBytes bs) = 2 * length bs)%nat ∧ allLabelChars (hexBytes bs) = true.
Proof.
  induction bs as [|b bs [IHl IHc]]; [done |].
  change (hexBytes (b :: bs)) with (hexByte b +:+ hexBytes bs).
  destruct (hexByte_shape b) as [Hl Hc].
  rewrite string_length_append, allLabelChars_append, Hl, Hc, IHl, IHc.
  split; [simpl; lia | done].
Qed.

(** X1: when the digest has at least six bytes, as a SHA-256 digest has, the
    name of a Storage Workload is 23 characters long, all of them lower-case
    letters, digits or [-]: it is a valid object name whatever the job URL
    is. *)
Theorem prometheusDeploymentName_shape (L : GoLib) (o : Operator) (job : Job) :
  (6 ≤ length (sha256_Sum256 L (pjStatusURL (jProwJob job))))%nat →
  nnNamespace (prometheusDeploymentName L o job) = Namespace o ∧
  String.length (nnName (prometheusDeploymentName L o job)) = 23%nat ∧
  allLabelChars (nnName (prometheusDeploymentName L o job)) = true.
Proof.
  intros Hlen. unfold prometheusDeploymentName, nnName, nnNamespace; simpl.
  destruct (hexBytes_shape (take 6 (sha256_Sum256 L (pjStatusURL (jProwJob job)))))
    as [Hl Hc].
  rewrite length_take, Nat.min_l in Hl by lia.
  rewrite string_length_append, allLabelChars_append, Hl, Hc.
  split; [done |]. split; reflexivity.
Qed.

Lemma prometheusDeploymentName_shape_witness :
  (6 ≤ length (sha256_Sum256 Demo.lib (pjStatusURL (jProwJob Demo.jobU))))%nat ∧
  String.length (nnName (prometheusDeploymentName Demo.lib Demo.operator Demo.jobU)) = 23%nat.
Proof.
  assert ((6 ≤ length (sha256_Sum256 Demo.lib (pjStatusURL (jProwJob Demo.jobU))))%nat) as H
    by (vm_compute; lia).
  split; [exact H |].
  exact (proj1 (proj2 (prometheusDeploymentName_shape Demo.lib Demo.operator Demo.jobU H))).
Defined.

(** X2: two jobs share a Storage Workload exactly when the first six bytes of
    the digests of their status URLs agree; the archive URL and the job name
    play no part. *)
Theorem prometheusDeploymentName_eq_iff (L : GoLib) (o : Operator) (job1 job2 : Job) :
  prometheusDeploymentName L o job1 = prometheusDeploymentName L o job2
  ↔ take 6 (sha256_Sum256 L (pjStatusURL (jProwJob job1)))
    = take 6 (sha256_Sum256 L (pjStatusURL (jProwJob job2))).
Proof.
  unfold prometheusDeploymentName. cbv zeta. split.
  - intros H. injection H as H.
    apply String.app_inj in H. by apply hexBytes_inj.
  - by intros ->.
Qed.

(** X3: the two kinds of deployment the operator creates never share a name:
    the Storage Workload of a job is not the Aggregation Workload of a
    cluster, whatever the job and the cluster. *)
Theorem workload_names_disjoint (L : GoLib) (o : Operator) (job : Job)
    (cluster : MetricsCluster) :
  prometheusDeploymentName L o job ≠ thanosQueryDeploymentName o cluster.
Proof.
  unfold prometheusDeploymentName, thanosQueryDeploymentName. cbv zeta.
  intros H. discriminate H.
Qed.

(** ** How the manifests fit together (operator.go:382-729) *)

(** X4: the Store Service of a cluster selects the pods of every Storage
    Workload built for that cluster: each entry of its selector is a
    pod-template label of the workload, whatever the cluster is named. *)
Theorem store_service_selects_workload (L : GoLib) (o : Operator)
    (cluster : MetricsCluster) (job : Job) (completionTime : Time)
    (memory : Quantity) :
  sSelector (thanosStoreServiceManifest o cluster)
  ⊆ tLabels (dsTemplate (dSpec
      (desiredWorkload L o cluster job completionTime memory))).
Proof.
  apply map_subseteq_spec. intros k v. simpl. unfold prometheusTemplateLabels.
  destruct (decide (mcName cluster = k)) as [<- | Hne].
  - by rewrite !lookup_insert_eq.
  - rewrite !(lookup_insert_ne _ (mcName cluster)) by done.
    intros [<- <-]%lookup_singleton_Some.
    by rewrite lookup_insert_eq.
Qed.

(** X5: the selector of a Storage Workload matches its own pod template
    exactly when the referencing cluster is named neither [app] nor
    [prometheus]: the label of a cluster of such a name overwrites a label
    the selector asks for. *)
Theorem workload_selector_matches_iff (L : GoLib) (o : Operator)
    (cluster : MetricsCluster) (job : Job) (completionTime : Time)
    (memory : Quantity) :
  dsSelector (dSpec (desiredWorkload L o cluster job completionTime memory))
  ⊆ tLabels (dsTemplate (dSpec
      (desiredWorkload L o cluster job completionTime memory)))
  ↔ mcName cluster ≠ "app" ∧ mcName cluster ≠ "prometheus".
Proof.
  simpl. unfold prometheusTemplateLabels. rewrite map_subseteq_spec. split.
  - intros Hsub. split; intros Heq.
    + specialize (Hsub "app" "prometheus"). rewrite Heq in Hsub.
      rewrite !lookup_insert_eq in Hsub. by specialize (Hsub eq_refl).
    + specialize (Hsub "prometheus"
                    (nnName (prometheusDeploymentName L o job))).
      rewrite Heq in Hsub.
      rewrite lookup_insert_eq, lookup_insert_ne, lookup_singleton_eq in Hsub by done.
      specialize (Hsub eq_refl).
      unfold prometheusDeploymentName, nnName in Hsub. simpl in Hsub.
      discriminate Hsub.
  - intros [Happ Hprom] k v Hk.
    destruct (decide (k = mcName cluster)) as [-> | Hne].
    + apply lookup_insert_Some in Hk as [[Heq _] | [_ Hk]]; [by symmetry in Heq |].
      apply lookup_singleton_Some in Hk as [Heq _]. by symmetry in Heq.
    + by rewrite lookup_insert_ne.
Qed.

(** X6: the per-cluster query layer is wired end to end: the Aggregation
    Service selects the pod labels of the Aggregation Workload, which are
    also the workload's own selector; the External Route targets the
    Aggregation Service by name, in its namespace, at a port the service
    has; and the workload's store address names the Store Service and its
    namespace. *)
Theorem query_layer_wired (o : Operator) (cluster : MetricsCluster) :
  let deployment := thanosQueryDeploymentManifest o cluster in
  let service := thanosQueryServiceManifest o cluster in
  let route := thanosQueryRouteManifest o cluster in
  let store := thanosStoreServiceManifest o cluster in
  dsSelector (dSpec deployment) = tLabels (dsTemplate (dSpec deployment)) ∧
  sSelector service = tLabels (dsTemplate (dSpec deployment)) ∧
  rToKind route = "Service" ∧
  rToName route = sName service ∧
  rNamespace route = sNamespace service ∧
  rTargetPort route ∈ spName <$> sPorts service ∧
  (∀ p, p ∈ sPorts service → spName p = rTargetPort route →
        ∃ c cp, c ∈ psContainers (tSpec (dsTemplate (dSpec deployment))) ∧
                cp ∈ ctPorts c ∧ cpContainerPort cp = spPort p) ∧
  (∃ c, c ∈ psContainers (tSpec (dsTemplate (dSpec deployment))) ∧
        ("--store=dnssrv+_grpc._tcp." +:+ sName store +:+ "."
           +:+ sNamespace store +:+ ".svc") ∈ ctCommand c) ∧
  "grpc" ∈ spName <$> sPorts store.
Proof.
  cbv zeta. repeat split.
  - simpl. left.
  - intros p Hp Hname. simpl in Hp.
    apply elem_of_cons in Hp as [-> | Hp].
    + eexists _, _. split; [left |]. split; [left |]. reflexivity.
    + apply list_elem_of_singleton in Hp as ->. discriminate Hname.
  - eexists. split; [left |]. simpl. do 4 right. left.
  - simpl. left.
Qed.

(** ** What a reconciler may and may not do *)

Section Frame.
Context (allowed : Call → bool) (F : World → World → Prop)
        (G : option StrMap → option StrMap → Prop).
Hypothesis F_refl : ∀ w, F w w.
Hypothesis F_trans : ∀ w1 w2 w3, F w1 w2 → F w2 w3 → F w1 w3.
Hypothesis G_refl : ∀ c, G c c.
Hypothesis G_trans : ∀ c1 c2 c3, G c1 c2 → G c2 c3 → G c1 c3.

Lemma framed_refl st : framed allowed F G st st.
Proof.
  split; [| split]; [| apply F_refl | apply G_refl].
  exists []. by rewrite app_nil_r.
Qed.

Lemma framed_trans s1 s2 s3 :
  framed allowed F G s1 s2 → framed allowed F G s2 s3 → framed allowed F G s1 s3.
Proof.
  intros ((cs1 & Hc1 & Ha1) & HF1 & HG1) ((cs2 & Hc2 & Ha2) & HF2 & HG2).
  split; [| split]; [| by eapply F_trans | by eapply G_trans].
  exists (cs1 ++ cs2). split.
  - by rewrite Hc2, Hc1, app_assoc.
  - rewrite forallb_app. by rewrite Ha1, Ha2.
Qed.

(** A computation that leaves the calls, the stored objects and the cache
    as they are. *)
Lemma framed_unchanged {A} (m : M A) :
  (∀ st, calls (after m st) = calls st ∧ world (after m st) = world st
         ∧ prometheusURLs (after m st) = prometheusURLs st) →
  Preserves (framed allowed F G) m.
Proof.
  intros H st. destruct (H st) as (Hc & Hw & Hp).
  split; [| split].
  - exists []. by rewrite Hc, app_nil_r.
  - rewrite Hw. apply F_refl.
  - rewrite Hp. apply G_refl.
Qed.

Lemma framed_ret {A} (a : A) : Preserves (framed allowed F G) (ret a).
Proof. by apply framed_unchanged. Qed.
Lemma framed_raise {A} msg : Preserves (framed allowed F G) (raise (A:=A) msg).
Proof. by apply framed_unchanged. Qed.
Lemma framed_panic {A} : Preserves (framed allowed F G) (panic (A:=A)).
Proof. by apply framed_unchanged. Qed.
Lemma framed_heapAlloc m : Preserves (framed allowed F G) (heapAlloc m).
Proof. by apply framed_unchanged. Qed.
Lemma framed_heapStore r k v : Preserves (framed allowed F G) (heapStore r k v).
Proof. by apply framed_unchanged. Qed.
Lemma framed_getHeap : Preserves (framed allowed F G) getHeap.
Proof. by apply framed_unchanged. Qed.

Lemma framed_bind {A B} (m : M A) (k : A → M B) :
  Preserves (framed allowed F G) m → (∀ a, Preserves (framed allowed F G) (k a)) →
  Preserves (framed allowed F G) (bind m k).
Proof. apply preserves_bind, framed_trans. Qed.

Lemma framed_forRange {A} (xs : list A) (body : A → M unit) :
  (∀ x, Preserves (framed allowed F G) (body x)) →
  Preserves (framed allowed F G) (forRange xs body).
Proof. apply preserves_forRange; [apply framed_refl | apply framed_trans]. Qed.

Lemma framed_loadDeployment d : Preserves (framed allowed F G) (loadDeployment d).
Proof.
  unfold loadDeployment. apply framed_bind; [apply framed_heapAlloc |].
  intros r. apply framed_ret.
Qed.

Lemma framed_prometheusDeploymentManifest L o job :
  Preserves (framed allowed F G) (prometheusDeploymentManifest L o job).
Proof.
  unfold prometheusDeploymentManifest.
  destruct (pjStatusCompletionTime _); [| apply framed_panic].
  apply framed_bind; [apply framed_heapAlloc |]. intros r.
  destruct (resource_ParseQuantity _ _); [apply framed_ret | apply framed_panic].
Qed.

Section FrameClient.
Context (E : Outside) {A : Type} (S : Store A).

Lemma framed_call (c : Call) (st : State) (w : World) :
  allowed c = true → F (world st) w →
  framed allowed F G st (withWorld w (withCalls [c] st)).
Proof.
  intros Ha HF. split; [| split]; [| exact HF | apply G_refl].
  exists [c]. split; [done |]. simpl. by rewrite Ha.
Qed.

Lemma framed_client_Get key :
  allowed (CGet (stKind S) key) = true →
  Preserves (framed allowed F G) (client_Get E S key).
Proof.
  intros Ha st. unfold after. rewrite client_Get_run. simpl.
  apply (framed_call _ st (world st) Ha), F_refl.
Qed.

Lemma framed_client_List ns :
  allowed (CList (stKind S) ns) = true →
  Preserves (framed allowed F G) (client_List E S ns).
Proof.
  intros Ha st. unfold after. rewrite client_List_run. simpl.
  apply (framed_call _ st (world st) Ha), F_refl.
Qed.

Lemma framed_client_Create obj :
  allowed (CCreate (stKind S) (stKey S obj)) = true →
  (∀ w, stGet S w !! stKey S obj = None →
        F w (stSet S (<[stKey S obj := obj]> (stGet S w)) w)) →
  Preserves (framed allowed F G) (client_Create E S obj).
Proof.
  intros Ha HF st. unfold after. rewrite client_Create_run. cbv zeta.
  destruct (apiFault E _); simpl.
  - apply (framed_call _ st (world st) Ha), F_refl.
  - destruct (stGet S (world st) !! stKey S obj) eqn:Hk; simpl.
    + apply (framed_call _ st (world st) Ha), F_refl.
    + apply (framed_call _ st _ Ha), HF, Hk.
Qed.

Lemma framed_client_Update obj :
  allowed (CUpdate (stKind S) (stKey S obj)) = true →
  (∀ w x, stGet S w !! stKey S obj = Some x →
          F w (stSet S (<[stKey S obj := obj]> (stGet S w)) w)) →
  Preserves (framed allowed F G) (client_Update E S obj).
Proof.
  intros Ha HF st. unfold after. rewrite client_Update_run. cbv zeta.
  destruct (apiFault E _); simpl.
  - apply (framed_call _ st (world st) Ha), F_refl.
  - destruct (stGet S (world st) !! stKey S obj) eqn:Hk; simpl.
    + apply (framed_call _ st _ Ha), (HF _ _ Hk).
    + apply (framed_call _ st (world st) Ha), F_refl.
Qed.

Lemma framed_client_Delete obj :
  allowed (CDelete (stKind S) (stKey S obj)) = true →
  (∀ w x, stGet S w !! stKey S obj = Some x →
          F w (stSet S (delete (stKey S obj) (stGet S w)) w)) →
  Preserves (framed allowed F G) (client_Delete E S obj).
Proof.
  intros Ha HF st. unfold after. rewrite client_Delete_run. cbv zeta.
  destruct (apiFault E _); simpl.
  - apply (framed_call _ st (world st) Ha), F_refl.
  - destruct (stGet S (world st) !! stKey S obj) eqn:Hk; simpl.
    + apply (framed_call _ st _ Ha), (HF _ _ Hk).
    + apply (framed_call _ st (world st) Ha), F_refl.
Qed.
End FrameClient.

(** The resolver issues no API call and leaves the stored objects as they
    are; the cache it leaves holds the entries it had and at most one
    more, for a URL that had none. *)
Lemma framed_findPrometheusTarURL E jobURL gcsPrefix :
  (∀ c, G c (Some (cacheEntries c))) →
  (∀ c url tarURL, cacheEntries c !! url = None →
                   G c (Some (<[url := tarURL]> (cacheEntries c)))) →
  Preserves (framed allowed F G) (findPrometheusTarURL E jobURL gcsPrefix).
Proof.
  intros HG1 HG2 [w cs c ls h].
  unfold after, findPrometheusTarURL, bind, getPrometheusURLs,
    setPrometheusURLs, logLookup, ret; simpl.
  assert (match c with Some m => m | None => ∅ end = cacheEntries c) as ->
    by (by destruct c).
  assert (∀ c', G c c' → ∀ ls',
    framed allowed F G
      {| world := w; calls := cs; prometheusURLs := c; lookups := ls; heap := h |}
      {| world := w; calls := cs; prometheusURLs := c'; lookups := ls'; heap := h |})
    as Hframed.
  { intros c' HG ls'. split; [| split]; [| apply F_refl | exact HG].
    exists []. simpl. by rewrite app_nil_r. }
  destruct (cacheEntries c !! jobURL) eqn:Hhit; simpl; [by apply Hframed |].
  destruct (getTarURLFromProw E jobURL gcsPrefix); simpl; apply Hframed; auto.
Qed.
End Frame.

Lemma onlyDeploymentsRemoved_refl w : onlyDeploymentsRemoved w w.
Proof. by split_and!. Qed.

Lemma onlyDeploymentsRemoved_trans w1 w2 w3 :
  onlyDeploymentsRemoved w1 w2 → onlyDeploymentsRemoved w2 w3 →
  onlyDeploymentsRemoved w1 w3.
Proof.
  intros (Hc1 & Hs1 & Hr1 & Hd1) (Hc2 & Hs2 & Hr2 & Hd2).
  split_and!; [congruence | congruence | congruence |].
  by etrans.
Qed.

Lemma onlyDeploymentsRemoved_delete obj w (x : Deployment StrMap) :
  stGet deploymentStore w !! stKey deploymentStore obj = Some x →
  onlyDeploymentsRemoved w
    (stSet deploymentStore
       (delete (stKey deploymentStore obj) (stGet deploymentStore w)) w).
Proof. intros _. split_and!; simpl; try done. apply delete_subseteq. Qed.

Lemma nothingRemoved_refl w : nothingRemoved w w.
Proof. by split_and!. Qed.

Lemma nothingRemoved_trans w1 w2 w3 :
  nothingRemoved w1 w2 → nothingRemoved w2 w3 → nothingRemoved w1 w3.
Proof.
  intros (Hc1 & Hs1 & Hr1 & Hd1) (Hc2 & Hs2 & Hr2 & Hd2).
  split_and!; [congruence | by etrans | by etrans | by etrans].
Qed.

Lemma nothingRemoved_create_deployment obj w :
  stGet deploymentStore w !! stKey deploymentStore obj = None →
  nothingRemoved w
    (stSet deploymentStore
       (<[stKey deploymentStore obj := obj]> (stGet deploymentStore w)) w).
Proof. intros _. split_and!; simpl; try done. apply dom_insert_subseteq. Qed.

Lemma nothingRemoved_update_deployment obj w (x : Deployment StrMap) :
  stGet deploymentStore w !! stKey deploymentStore obj = Some x →
  nothingRemoved w
    (stSet deploymentStore
       (<[stKey deploymentStore obj := obj]> (stGet deploymentStore w)) w).
Proof. intros _. split_and!; simpl; try done. apply dom_insert_subseteq. Qed.

Lemma nothingRemoved_create_service obj w :
  stGet serviceStore w !! stKey serviceStore obj = None →
  nothingRemoved w
    (stSet serviceStore
       (<[stKey serviceStore obj := obj]> (stGet serviceStore w)) w).
Proof. intros H. split_and!; simpl; try done. by apply insert_subseteq. Qed.

Lemma nothingRemoved_create_route obj w :
  stGet routeStore w !! stKey routeStore obj = None →
  nothingRemoved w
    (stSet routeStore
       (<[stKey routeStore obj := obj]> (stGet routeStore w)) w).
Proof. intros H. split_and!; simpl; try done. by apply insert_subseteq. Qed.

Lemma cacheGrows_refl c : cacheGrows c c.
Proof. unfold cacheGrows. done. Qed.

Lemma cacheGrows_trans c1 c2 c3 : cacheGrows c1 c2 → cacheGrows c2 c3 → cacheGrows c1 c3.
Proof. unfold cacheGrows. intros. by etrans. Qed.

Lemma cacheGrows_allocated c : cacheGrows c (Some (cacheEntries c)).
Proof. unfold cacheGrows. by simpl. Qed.

Lemma cacheGrows_insert c url tarURL :
  cacheEntries c !! url = None →
  cacheGrows c (Some (<[url := tarURL]> (cacheEntries c))).
Proof. intros H. unfold cacheGrows. simpl. by apply insert_subseteq. Qed.

Lemma eq_cache_trans (c1 c2 c3 : option StrMap) : c1 = c2 → c2 = c3 → c1 = c3.
Proof. congruence. Qed.

Create HintDb framed discriminated.
#[global] Hint Resolve onlyDeploymentsRemoved_refl onlyDeploymentsRemoved_trans
  onlyDeploymentsRemoved_delete nothingRemoved_refl nothingRemoved_trans
  nothingRemoved_create_deployment nothingRemoved_update_deployment
  nothingRemoved_create_service nothingRemoved_create_route
  cacheGrows_refl cacheGrows_trans cacheGrows_allocated cacheGrows_insert
  eq_cache_trans : framed.
#[global] Hint Resolve framed_ret framed_raise framed_panic framed_heapStore
  framed_getHeap framed_loadDeployment framed_prometheusDeploymentManifest
  framed_client_Get framed_client_List framed_client_Create
  framed_client_Update framed_client_Delete framed_findPrometheusTarURL : framed.
#[global] Hint Extern 1 (_ = true) => reflexivity : framed.
#[global] Hint Extern 1 (@eq (option _) _ _) => reflexivity : framed.

(** Walk down a monadic term, keeping a frame. *)
Ltac framed_walk :=
  repeat first
    [ solve [eauto 6 with framed]
    | apply framed_bind; [solve [eauto with framed] | solve [eauto with framed] | | intros ?]
    | apply framed_forRange;
        [solve [eauto with framed] | solve [eauto with framed]
        | solve [eauto with framed] | solve [eauto with framed] | intros ?]
    | match goal with
      | |- Preserves _ (if ?b then _ else _) => destruct b
      | |- Preserves _ (match ?x with _ => _ end) => destruct x
      end ].

Lemma reconcileDeployment_framed E o request :
  Preserves (framed readOrDeleteDeployment onlyDeploymentsRemoved eq)
            (reconcileDeployment E o request).
Proof.
  unfold reconcileDeployment, reconcilePrometheusDeployment. cbv zeta.
  framed_walk.
Qed.

Lemma reconcileMetricsCluster_framed L E o request :
  Preserves (framed noDeleteNoClusterWrite nothingRemoved cacheGrows)
            (reconcileMetricsCluster L E o request).
Proof.
  unfold reconcileMetricsCluster, removeReferences, reconcileURLs, reconcileURL,
    ensureDerived, ensureStoreService, ensureQueryDeployment,
    ensureQueryService, ensureQueryRoute.
  cbv zeta. framed_walk.
Qed.

Lemma callsAllowed_during {A} (allowed : Call → bool) (m : M A) st :
  callsAllowed allowed st (after m st) →
  ∀ c, c ∈ callsDuring m st → allowed c = true.
Proof.
  intros (cs & Hcs & Hall) c Hc. unfold callsDuring in Hc.
  rewrite Hcs, drop_app_length in Hc.
  rewrite forallb_forall in Hall. apply Hall. by apply list_elem_of_In.
Qed.

(** X7: whatever it is delivered and whatever fails, the derived-workload
    reconciler issues reads and deletes of deployments and no other call; the
    deployments stored afterwards were stored before, unchanged; clusters,
    services and routes are as they were, and so is the cache. *)
Theorem reconcileDeployment_only_deletes (E : Outside) (o : Operator)
    (request : NamespacedName) (st : State) :
  (∀ c, c ∈ callsDuring (reconcileDeployment E o request) st →
        readOrDeleteDeployment c = true) ∧
  onlyDeploymentsRemoved (world st)
    (world (after (reconcileDeployment E o request) st)) ∧
  prometheusURLs (after (reconcileDeployment E o request) st) = prometheusURLs st.
Proof.
  destruct (reconcileDeployment_framed E o request st) as (Hc & Hw & Hp).
  split; [by apply callsAllowed_during |]. split; [exact Hw | by symmetry].
Qed.

(** X8: whatever it is delivered and whatever fails, the Declared-Cluster
    reconciler never issues a delete and never writes a Declared Cluster;
    every service and route stored before is stored unchanged afterwards,
    and every deployment stored before is still stored. *)
Theorem reconcileMetricsCluster_removes_nothing (L : GoLib) (E : Outside)
    (o : Operator) (request : NamespacedName) (st : State) :
  (∀ c, c ∈ callsDuring (reconcileMetricsCluster L E o request) st →
        noDeleteNoClusterWrite c = true) ∧
  nothingRemoved (world st)
    (world (after (reconcileMetricsCluster L E o request) st)).
Proof.
  destruct (reconcileMetricsCluster_framed L E o request st) as (Hc & Hw & Hp).
  split; [by apply callsAllowed_during | exact Hw].
Qed.

(** X9: a reconciliation never drops or changes an entry of the
    memoization cache, whether it succeeds, fails or panics: an archive URL
    once resolved stays resolved to the same value. *)
Theorem reconcileMetricsCluster_keeps_cache (L : GoLib) (E : Outside)
    (o : Operator) (request : NamespacedName) (st : State)
    (jobURL tarURL : string) :
  cacheEntries (prometheusURLs st) !! jobURL = Some tarURL →
  cacheEntries (prometheusURLs (after (reconcileMetricsCluster L E o request) st))
    !! jobURL = Some tarURL.
Proof.
  intros Hhit.
  destruct (reconcileMetricsCluster_framed L E o request st) as (Hc & Hw & Hp).
  unfold cacheGrows in Hp. by eapply lookup_weaken.
Qed.

Lemma reconcileMetricsCluster_keeps_cache_witness :
  cacheEntries (prometheusURLs (after Demo.reconcileA (initState Demo.worldAB)))
    !! Demo.urlU = Some (PrometheusTarURL Demo.jobU) ∧
  cacheEntries
    (prometheusURLs
       (after (reconcileMetricsCluster Demo.lib Demo.outside Demo.operator Demo.keyB)
              (after Demo.reconcileA (initState Demo.worldAB))))
    !! Demo.urlU = Some (PrometheusTarURL Demo.jobU).
Proof.
  assert (cacheEntries (prometheusURLs (after Demo.reconcileA (initState Demo.worldAB)))
            !! Demo.urlU = Some (PrometheusTarURL Demo.jobU)) as H
    by (vm_compute; reflexivity).
  split; [exact H |].
  exact (reconcileMetricsCluster_keeps_cache Demo.lib Demo.outside Demo.operator
           Demo.keyB _ _ _ H).
Defined.

(** ** Errors and edge cases of the derived-workload reconciler
       (operator.go:149-199) *)

(** X10: a deployment that is not stored any more is not an error: the
    delivery ends as done after the one [Get]; a fetch that fails otherwise
    is returned as an error; in both cases nothing is written. *)
Theorem reconcileDeployment_unfetched (E : Outside) (o : Operator)
    (request : NamespacedName) (st : State) :
  wDeployments (world st) !! request = None
  ∨ apiFault E (CGet KDeployment request) = true →
  reconcileDeployment E o request st
  = (if apiFault E (CGet KDeployment request)
     then Raise "couldn't fetch deployment" else Val tt,
     withCalls [CGet KDeployment request] st).
Proof.
  intros H. unfold reconcileDeployment.
  erewrite bind_Val; [| apply client_Get_run]. store_simpl.
  destruct (apiFault E (CGet KDeployment request)); [done |].
  destruct H as [-> | H]; done.
Qed.

Lemma reconcileDeployment_unfetched_witness :
  wDeployments (world (initState Demo.worldAB)) !! ("dowser", "gone") = None ∧
  reconcileDeployment Demo.outside Demo.operator ("dowser", "gone")
    (initState Demo.worldAB)
  = (Val tt, withCalls [CGet KDeployment ("dowser", "gone")] (initState Demo.worldAB)).
Proof.
  assert (wDeployments (world (initState Demo.worldAB)) !! ("dowser", "gone") = None)
    as H by (vm_compute; reflexivity).
  split; [exact H |].
  exact (reconcileDeployment_unfetched Demo.outside Demo.operator
           ("dowser", "gone") (initState Demo.worldAB) (or_introl H)).
Defined.

(** X11: deleting a workload that is gone by the time of the delete is
    benign: an unreferenced workload that is no longer stored makes the
    reconciler return success, with the store as it was. *)
Theorem reconcilePrometheusDeployment_already_gone (E : Outside) (o : Operator)
    (d : Deployment StrMap) (st : State) :
  apiFault E (CList KMetricsCluster (Namespace o)) = false →
  ¬ referencedBy (storedIn clusterStore (Namespace o) (world st)) d →
  apiFault E (CDelete KDeployment (dNamespace d, dName d)) = false →
  wDeployments (world st) !! (dNamespace d, dName d) = None →
  outcome (reconcilePrometheusDeployment E o d) st = Val tt ∧
  world (after (reconcilePrometheusDeployment E o d) st) = world st.
Proof.
  intros Hlist Href Hdel Hgone.
  pose proof (reconcilePrometheusDeployment_run E o d st Hlist) as Hrun.
  cbv zeta in Hrun.
  destruct (existsb _ _) eqn:Hex.
  { exfalso. apply Href. by apply isReferenced_spec. }
  rewrite Hdel in Hrun. unfold outcome, after. rewrite Hrun. simpl.
  split; [done |]. rewrite delete_id by done.
  by destruct (world st).
Qed.

Lemma reconcilePrometheusDeployment_already_gone_witness :
  apiFault Demo.outside (CList KMetricsCluster (Namespace Demo.operator)) = false ∧
  ¬ referencedBy (storedIn clusterStore (Namespace Demo.operator)
                    (world (initState (Demo.withClusters [Demo.clusterB] emptyWorld))))
      (Demo.storedWorkloadU {[ "a" := "true" ]} ∅) ∧
  outcome (reconcilePrometheusDeployment Demo.outside Demo.operator
             (Demo.storedWorkloadU {[ "a" := "true" ]} ∅))
          (initState (Demo.withClusters [Demo.clusterB] emptyWorld)) = Val tt.
Proof.
  assert (¬ referencedBy
            (storedIn clusterStore (Namespace Demo.operator)
               (world (initState (Demo.withClusters [Demo.clusterB] emptyWorld))))
            (Demo.storedWorkloadU {[ "a" := "true" ]} ∅)) as Href.
  { intros Href. apply isReferenced_spec in Href. by vm_compute in Href. }
  split; [reflexivity |]. split; [exact Href |].
  refine (proj1 (reconcilePrometheusDeployment_already_gone Demo.outside Demo.operator
                   (Demo.storedWorkloadU {[ "a" := "true" ]} ∅)
                   (initState (Demo.withClusters [Demo.clusterB] emptyWorld))
                   eq_refl Href eq_refl _)).
  vm_compute. reflexivity.
Defined.

(** X12: a failure to list the clusters, or to delete an unreferenced
    workload, is returned as an error, and the store is as it was. *)
Theorem reconcilePrometheusDeployment_failure_returned (E : Outside)
    (o : Operator) (d : Deployment StrMap) (st : State) :
  apiFault E (CList KMetricsCluster (Namespace o)) = true
  ∨ (apiFault E (CList KMetricsCluster (Namespace o)) = false
     ∧ ¬ referencedBy (storedIn clusterStore (Namespace o) (world st)) d
     ∧ apiFault E (CDelete KDeployment (dNamespace d, dName d)) = true) →
  outcome (reconcilePrometheusDeployment E o d) st
  = Raise (if apiFault E (CList KMetricsCluster (Namespace o))
           then "couldn't fetch metricsclusters"
           else "couldn't delete deployment") ∧
  world (after (reconcilePrometheusDeployment E o d) st) = world st.
Proof.
  intros [Hlist | (Hlist & Href & Hdel)].
  - unfold outcome, after, reconcilePrometheusDeployment.
    erewrite bind_Val; [| apply client_List_run]. store_simpl.
    by rewrite Hlist.
  - pose proof (reconcilePrometheusDeployment_run E o d st Hlist) as Hrun.
    cbv zeta in Hrun.
    destruct (existsb _ _) eqn:Hex.
    { exfalso. apply Href. by apply isReferenced_spec. }
    rewrite Hdel in Hrun. unfold outcome, after. by rewrite Hrun, Hlist.
Qed.

Lemma reconcilePrometheusDeployment_failure_returned_witness :
  apiFault (Demo.outsideFailing [CList KMetricsCluster "dowser"])
    (CList KMetricsCluster (Namespace Demo.operator)) = true ∧
  outcome (reconcilePrometheusDeployment
             (Demo.outsideFailing [CList KMetricsCluster "dowser"]) Demo.operator
             (Demo.storedWorkloadU ∅ ∅))
          (initState Demo.worldAB)
  = Raise "couldn't fetch metricsclusters".
Proof.
  assert (apiFault (Demo.outsideFailing [CList KMetricsCluster "dowser"])
            (CList KMetricsCluster (Namespace Demo.operator)) = true) as H
    by (vm_compute; reflexivity).
  split; [exact H |].
  pose proof (proj1 (reconcilePrometheusDeployment_failure_returned
                       (Demo.outsideFailing [CList KMetricsCluster "dowser"])
                       Demo.operator (Demo.storedWorkloadU ∅ ∅)
                       (initState Demo.worldAB) (or_introl H))) as Hout.
  rewrite H in Hout. exact Hout.
Defined.

(** ** Errors and edge cases of the Declared-Cluster reconciler
       (operator.go:201-287) *)

Lemma forRange_outcome_Val {A} (xs : list A) (body : A → M unit) st :
  (∀ x st, outcome (body x) st = Val tt) →
  outcome (forRange xs body) st = Val tt.
Proof.
  intros Hbody. revert st. induction xs as [|x xs IH]; intros st; [done |].
  simpl. unfold outcome, bind. specialize (Hbody x st). unfold outcome in Hbody.
  destruct (body x st) as [r st1]. simpl in Hbody. subst r. apply IH.
Qed.

(** X13: when the references of a deleted cluster are stripped, a failed
    update is logged and nothing more: once the deployments are listed the
    delivery ends as done whatever updates failed, and only a failed list is
    returned as an error. *)
Theorem removeReferences_swallows_update_errors (E : Outside) (o : Operator)
    (cluster : MetricsCluster) (st : State) :
  outcome (removeReferences E o cluster) st
  = if apiFault E (CList KDeployment (Namespace o))
    then Raise "couldn't list deployments" else Val tt.
Proof.
  unfold outcome, removeReferences.
  erewrite bind_Val; [| apply client_List_run]. store_simpl.
  destruct (apiFault E _); [done |].
  apply forRange_outcome_Val. intros d st1.
  destruct (hasKey _ _); [| done].
  unfold outcome, bind. rewrite client_Update_run. cbv zeta.
  destruct (apiFault E _); [done |].
  by destruct (stGet _ _ !! _).
Qed.

(** The start of the loop body, up to the fetch of the Storage Workload:
    once the metadata is fetched and the archive URL resolved, the body has
    issued the one [Get] and goes on by cases on its result. *)
Lemma reconcileURL_fetch_fails
    (L : GoLib) (E : Outside) (o : Operator) (cluster : MetricsCluster)
    (url : string) (st : State) (prowJob : ProwJob) (decodeFailed : bool)
    (tarURL : string) :
  http_Get E (strings_ReplaceAll L url (ProwBaseURL o) (GCSStorageBaseURL o)
              +:+ "/prowjob.json") = Some (prowJob, decodeFailed) →
  resolved E o url st = inl tarURL →
  apiFault E (CGet KDeployment
                (prometheusDeploymentName L o
                   {| jProwJob := prowJob; PrometheusTarURL := tarURL |})) = true →
  ∃ st1,
    world st1 = world st ∧
    calls st1 = calls st ++
      [CGet KDeployment
         (prometheusDeploymentName L o
            {| jProwJob := prowJob; PrometheusTarURL := tarURL |})] ∧
    reconcileURL L E o cluster url st = (Raise "couldn't fetch deployment", st1).
Proof.
  intros Hhttp Hresolved Hget.
  destruct (findPrometheusTarURL_run E o url st) as (c & ls & Hfind).
  rewrite Hresolved in Hfind.
  destruct st as [w cs c0 ls0 h]. state_simpl in Hfind.
  eexists. split; [| split]; cycle 2.
  unfold reconcileURL. cbv zeta. rewrite Hhttp. cbv beta iota.
  erewrite bind_Val; [| exact Hfind].
  cbv beta iota.
  erewrite bind_Val; [| apply client_Get_run].
  store_simpl. rewrite Hget. reflexivity.
  - reflexivity.
  - reflexivity.
Qed.

(** X14: unlike a failure of metadata resolution, a failure to fetch the
    Storage Workload of a job URL ends the whole loop: the error is
    returned, and the job URLs after it are not processed. *)
Theorem workload_fetch_failure_aborts
    (L : GoLib) (E : Outside) (o : Operator) (cluster : MetricsCluster)
    (url : string) (rest : list string) (st : State) (prowJob : ProwJob)
    (decodeFailed : bool) (tarURL : string) :
  http_Get E (strings_ReplaceAll L url (ProwBaseURL o) (GCSStorageBaseURL o)
              +:+ "/prowjob.json") = Some (prowJob, decodeFailed) →
  resolved E o url st = inl tarURL →
  apiFault E (CGet KDeployment
                (prometheusDeploymentName L o
                   {| jProwJob := prowJob; PrometheusTarURL := tarURL |})) = true →
  outcome (reconcileURLs L E o cluster (url :: rest)) st
  = Raise "couldn't fetch deployment" ∧
  world (after (reconcileURLs L E o cluster (url :: rest)) st) = world st ∧
  callsDuring (reconcileURLs L E o cluster (url :: rest)) st
  = [CGet KDeployment
       (prometheusDeploymentName L o
          {| jProwJob := prowJob; PrometheusTarURL := tarURL |})].
Proof.
  intros Hhttp Hresolved Hget.
  destruct (reconcileURL_fetch_fails L E o cluster url st prowJob decodeFailed
              tarURL Hhttp Hresolved Hget) as (st1 & Hw & Hc & Hrun).
  assert (reconcileURLs L E o cluster (url :: rest) st
          = (Raise "couldn't fetch deployment", st1)) as Hloop.
  { unfold reconcileURLs. simpl. by erewrite bind_Raise. }
  unfold callsDuring, outcome, after. rewrite Hloop. simpl.
  split; [done |]. split; [done |].
  rewrite Hc. apply drop_app_length.
Qed.

Lemma workload_fetch_failure_aborts_witness :
  outcome (reconcileURLs Demo.lib
             (Demo.outsideFailing [CGet KDeployment Demo.workloadU])
             Demo.operator Demo.clusterThree (Demo.urlU :: [Demo.urlW]))
          (initState Demo.worldAB)
  = Raise "couldn't fetch deployment".
Proof.
  refine (proj1 (workload_fetch_failure_aborts Demo.lib
                   (Demo.outsideFailing [CGet KDeployment Demo.workloadU])
                   Demo.operator Demo.clusterThree Demo.urlU [Demo.urlW]
                   (initState Demo.worldAB)
                   (jProwJob Demo.jobU) false (PrometheusTarURL Demo.jobU)
                   _ _ _));
    vm_compute; reflexivity.
Defined.

(** When the Storage Workload of a job URL is not stored, the loop body
    fetches it in vain and creates the desired workload, with the label of
    the cluster being reconciled on its pod template. *)
Lemma reconcileURL_absent
    (L : GoLib) (E : Outside) (o : Operator) (cluster : MetricsCluster)
    (url : string) (st : State) (prowJob : ProwJob) (decodeFailed : bool)
    (tarURL : string) (completionTime : Time) (memory : Quantity) :
  let job := {| jProwJob := prowJob; PrometheusTarURL := tarURL |} in
  let name := prometheusDeploymentName L o job in
  let desired := desiredWorkload L o cluster job completionTime memory in
  http_Get E (strings_ReplaceAll L url (ProwBaseURL o) (GCSStorageBaseURL o)
              +:+ "/prowjob.json") = Some (prowJob, decodeFailed) →
  resolved E o url st = inl tarURL →
  apiFault E (CGet KDeployment name) = false →
  wDeployments (world st) !! name = None →
  pjStatusCompletionTime prowJob = Some completionTime →
  resource_ParseQuantity L (PrometheusMemory o) = Some memory →
  ∃ st1,
    world st1 = world st ∧
    calls st1 = calls st ++ [CGet KDeployment name] ∧
    reconcileURL L E o cluster url st = createWorkload E desired st1.
Proof.
  intros job name desired Hhttp Hresolved Hget Habsent Hcompleted Hmemory.
  destruct (findPrometheusTarURL_run E o url st) as (c & ls & Hfind).
  rewrite Hresolved in Hfind.
  destruct st as [w cs c0 ls0 h]. state_simpl in Hfind. state_simpl in Habsent.
  eexists. split; [| split]; cycle 2.
  unfold reconcileURL. cbv zeta. rewrite Hhttp. cbv beta iota.
  erewrite bind_Val; [| exact Hfind].
  cbv beta iota.
  fold job. fold name.
  erewrite bind_Val; [| apply client_Get_run].
  store_simpl. state_simpl. rewrite Hget, Habsent.
  unfold prometheusDeploymentManifest.
  change (pjStatusCompletionTime (jProwJob job)) with (pjStatusCompletionTime prowJob).
  rewrite Hcompleted, Hmemory.
  unfold bind, heapAlloc, heapStore, getHeap, ret. state_simpl.
  cbn [dSpec dsTemplate tLabels prometheusDeploymentObject fst snd].
  rewrite heapRead_alloc.
  unfold snapDeployment, snapSpec, snapTemplate.
  cbn [dSpec dsTemplate tLabels tAnnotations tSpec dsReplicas dsSelector
       dNamespace dName dLabels dAnnotations].
  rewrite heapRead_store.
  unfold createWorkload, desired, desiredWorkload, prometheusDeploymentObject, bind.
  reflexivity.
  - reflexivity.
  - reflexivity.
Qed.

(** X15: when the Storage Workload of a resolved job URL is not stored and
    the create does not fail, the loop body issues one [Get] and one
    [Create], and stores the desired workload under its deterministic name;
    it carries the referencing label of the cluster being reconciled, and
    every other stored object is as it was. *)
Theorem reconcileURL_creates
    (L : GoLib) (E : Outside) (o : Operator) (cluster : MetricsCluster)
    (url : string) (st : State) (prowJob : ProwJob) (decodeFailed : bool)
    (tarURL : string) (completionTime : Time) (memory : Quantity) :
  let job := {| jProwJob := prowJob; PrometheusTarURL := tarURL |} in
  let name := prometheusDeploymentName L o job in
  let desired := desiredWorkload L o cluster job completionTime memory in
  let m := reconcileURL L E o cluster url in
  http_Get E (strings_ReplaceAll L url (ProwBaseURL o) (GCSStorageBaseURL o)
              +:+ "/prowjob.json") = Some (prowJob, decodeFailed) →
  resolved E o url st = inl tarURL →
  apiFault E (CGet KDeployment name) = false →
  wDeployments (world st) !! name = None →
  pjStatusCompletionTime prowJob = Some completionTime →
  resource_ParseQuantity L (PrometheusMemory o) = Some memory →
  apiFault E (CCreate KDeployment name) = false →
  outcome m st = Val tt ∧
  callsDuring m st = [CGet KDeployment name; CCreate KDeployment name] ∧
  world (after m st)
  = stSet deploymentStore (<[name := desired]> (wDeployments (world st))) (world st) ∧
  templateLabel (world (after m st)) name (mcName cluster) = Some "true".
Proof.
  intros job name desired m Hhttp Hresolved Hget Habsent Hcompleted Hmemory Hcreate.
  destruct (reconcileURL_absent L E o cluster url st prowJob decodeFailed tarURL
              completionTime memory Hhttp Hresolved Hget Habsent Hcompleted Hmemory)
    as (st1 & Hw & Hc & Hrun).
  fold job name desired in Hrun.
  assert (m st = (Val tt,
            withWorld (stSet deploymentStore (<[name := desired]> (wDeployments (world st)))
                         (world st))
              (withCalls [CCreate KDeployment name] st1))) as Hm.
  { unfold m. rewrite Hrun. unfold createWorkload, bind.
    rewrite client_Create_run. store_simpl. cbv zeta.
    change (dNamespace desired, dName desired) with name.
    rewrite Hw, Hcreate, Habsent. reflexivity. }
  unfold callsDuring, outcome, after. rewrite Hm. simpl.
  split; [done |]. split; [| split; [done |]].
  - rewrite Hc, <- app_assoc. apply drop_app_length.
  - unfold templateLabel, templateLabelsOf. simpl.
    rewrite lookup_insert_eq. simpl. by rewrite lookup_insert_eq.
Qed.

Lemma reconcileURL_creates_witness :
  outcome (reconcileURL Demo.lib Demo.outside Demo.operator Demo.clusterA Demo.urlU)
          (initState Demo.worldAB) = Val tt ∧
  templateLabel
    (world (after (reconcileURL Demo.lib Demo.outside Demo.operator
                     Demo.clusterA Demo.urlU) (initState Demo.worldAB)))
    (prometheusDeploymentName Demo.lib Demo.operator
       {| jProwJob := jProwJob Demo.jobU; PrometheusTarURL := PrometheusTarURL Demo.jobU |})
    (mcName Demo.clusterA) = Some "true".
Proof.
  pose proof (reconcileURL_creates Demo.lib Demo.outside Demo.operator
                Demo.clusterA Demo.urlU (initState Demo.worldAB)
                (jProwJob Demo.jobU) false (PrometheusTarURL Demo.jobU)
                1600003600 "350Mi") as H.
  cbv zeta in H.
  assert (Demo.httpGet
            (Demo.ReplaceAll Demo.urlU (ProwBaseURL Demo.operator)
               (GCSStorageBaseURL Demo.operator) +:+ "/prowjob.json")
          = Some (jProwJob Demo.jobU, false)) as H1 by (vm_compute; reflexivity).
  assert (resolved Demo.outside Demo.operator Demo.urlU (initState Demo.worldAB)
          = inl (PrometheusTarURL Demo.jobU)) as H2 by (vm_compute; reflexivity).
  assert (wDeployments (world (initState Demo.worldAB))
            !! prometheusDeploymentName Demo.lib Demo.operator
                 {| jProwJob := jProwJob Demo.jobU;
                    PrometheusTarURL := PrometheusTarURL Demo.jobU |} = None) as H4
    by (vm_compute; reflexivity).
  destruct (H H1 H2 eq_refl H4 eq_refl eq_refl eq_refl) as (Ho & _ & _ & Hl).
  split; [exact Ho | exact Hl].
Defined.



(** ** The memoising resolver, called again (operator.go:757-772) *)


(** ** The create-if-absent sub-steps, when the objects exist
       (operator.go:289-373) *)

(** A sub-step whose object is stored issues its [Get] and nothing else. *)
Lemma ensureStep_present E o cluster s st :
  apiFault E (CGet (stepKind s) (stepName o cluster s)) = false →
  stepPresent o cluster s (world st) →
  ensureStep E o cluster s st
  = (Val tt, withCalls [CGet (stepKind s) (stepName o cluster s)] st).
Proof.
  intros Hget Hp.
  destruct s; destruct Hp as [x Hx];
    unfold ensureStep, ensureStoreService, ensureQueryDeployment,
      ensureQueryService, ensureQueryRoute;
    unfold stepName, stepKind in *; cbv zeta;
    (erewrite bind_Val; [| apply client_Get_run]);
    store_simpl; by rewrite Hget, Hx.
Qed.

(** A sub-step that succeeds had a [Get] that did not fail, and leaves its
    object stored. *)
Lemma ensureStep_success E o cluster s st :
  outcome (ensureStep E o cluster s) st = Val tt →
  apiFault E (CGet (stepKind s) (stepName o cluster s)) = false ∧
  stepPresent o cluster s (world (after (ensureStep E o cluster s) st)).
Proof.
  unfold outcome, after.
  destruct s;
    unfold ensureStep, ensureStoreService, ensureQueryDeployment,
      ensureQueryService, ensureQueryRoute;
    unfold stepPresent, stepName, stepKind,
      thanosStoreServiceManifest, thanosQueryDeploymentManifest,
      thanosQueryServiceManifest, thanosQueryRouteManifest,
      thanosStoreServiceName, thanosQueryDeploymentName,
      thanosQueryServiceName, thanosQueryRouteName; cbv zeta;
    (erewrite bind_Val; [| apply client_Get_run]);
    store_simpl;
    (destruct (apiFault E (CGet _ _)); [discriminate |]);
    autorewrite with state;
    (match goal with
     | |- context [match ?m !! ?k with _ => _ end] =>
         destruct (m !! k) as [x|] eqn:Hx
     end);
    cbv beta iota;
    try (intros _; split; [done |]; simpl; rewrite Hx; by eexists);
    unfold bind; rewrite client_Create_run; store_simpl; cbv zeta;
    autorewrite with state; simpl;
    (destruct (apiFault E (CCreate _ _)); [discriminate |]);
    rewrite Hx; simpl; intros _; (split; [done |]);
    rewrite lookup_insert_eq; by eexists.
Qed.

Lemma ensureStep_framed E o cluster s :
  Preserves (framed noDeleteNoClusterWrite nothingRemoved cacheGrows)
            (ensureStep E o cluster s).
Proof.
  destruct s;
    unfold ensureStep, ensureStoreService, ensureQueryDeployment,
      ensureQueryService, ensureQueryRoute; cbv zeta; framed_walk.
Qed.

Lemma stepPresent_kept o cluster s w w' :
  nothingRemoved w w' → stepPresent o cluster s w → stepPresent o cluster s w'.
Proof.
  intros (Hc & Hs & Hr & Hd) Hp. destruct s; unfold stepPresent in *.
  - by eapply lookup_weaken_is_Some.
  - apply elem_of_dom. apply Hd. by apply elem_of_dom.
  - by eapply lookup_weaken_is_Some.
  - by eapply lookup_weaken_is_Some.
Qed.

Lemma ensureStep_keeps_present E o cluster s s' st :
  stepPresent o cluster s' (world st) →
  stepPresent o cluster s' (world (after (ensureStep E o cluster s) st)).
Proof.
  apply stepPresent_kept.
  by destruct (ensureStep_framed E o cluster s st) as (_ & Hw & _).
Qed.

Lemma ensureDerived_all_present E o cluster st :
  (∀ s, apiFault E (CGet (stepKind s) (stepName o cluster s)) = false) →
  (∀ s, stepPresent o cluster s (world st)) →
  ensureDerived E o cluster st = (Val tt, withCalls (stepGets o cluster) st).
Proof.
  intros Hget Hpresent. unfold ensureDerived.
  erewrite bind_Val;
    [| apply (ensureStep_present E o cluster StoreService); [apply Hget | apply Hpresent]].
  erewrite bind_Val;
    [| apply (ensureStep_present E o cluster QueryDeployment); [apply Hget | apply Hpresent]].
  erewrite bind_Val;
    [| apply (ensureStep_present E o cluster QueryService); [apply Hget | apply Hpresent]].
  change (ensureQueryRoute E o cluster) with (ensureStep E o cluster QueryRoute).
  rewrite (ensureStep_present E o cluster QueryRoute) by (apply Hget || apply Hpresent).
  by rewrite !withCalls_withCalls.
Qed.

(** X18: the four per-cluster objects are never updated in place: when all
    four are stored, with whatever content, the ensure-existence phase
    issues its four [Get]s and nothing else, and succeeds. *)
Theorem ensureDerived_leaves_existing (E : Outside) (o : Operator)
    (cluster : MetricsCluster) (st : State) :
  (∀ s, apiFault E (CGet (stepKind s) (stepName o cluster s)) = false) →
  (∀ s, stepPresent o cluster s (world st)) →
  outcome (ensureDerived E o cluster) st = Val tt ∧
  world (after (ensureDerived E o cluster) st) = world st ∧
  callsDuring (ensureDerived E o cluster) st = stepGets o cluster.
Proof.
  intros Hget Hpresent.
  pose proof (ensureDerived_all_present E o cluster st Hget Hpresent) as Hrun.
  rewrite (callsDuring_run_calls _ _ _ _ Hrun).
  unfold outcome, after. by rewrite Hrun.
Qed.



Lemma ensureDerived_leaves_existing_witness :
  (∀ s, apiFault Demo.outside
          (CGet (stepKind s) (stepName Demo.operator Demo.clusterA s)) = false) ∧
  (∀ s, stepPresent Demo.operator Demo.clusterA s (world (initState worldEarlier))) ∧
  wDeployments worldEarlier !! thanosQueryDeploymentName Demo.operator Demo.clusterA
    ≠ Some (thanosQueryDeploymentManifest Demo.operator Demo.clusterA) ∧
  world (after (ensureDerived Demo.outside Demo.operator Demo.clusterA)
               (initState worldEarlier)) = world (initState worldEarlier).
Proof.
  assert (∀ s, apiFault Demo.outside
                 (CGet (stepKind s) (stepName Demo.operator Demo.clusterA s)) = false)
    as Hget by done.
  assert (∀ s, stepPresent Demo.operator Demo.clusterA s (world (initState worldEarlier)))
    as Hpresent.
  { intros s. destruct s; vm_compute; by eexists. }
  split; [exact Hget |]. split; [exact Hpresent |]. split.
  - vm_compute. discriminate.
  - exact (proj1 (proj2 (ensureDerived_leaves_existing Demo.outside Demo.operator
                           Demo.clusterA (initState worldEarlier) Hget Hpresent))).
Defined.

(** ** Stripping the references of a cluster (operator.go:209-225) *)

Lemma deleteTemplateLabel_key n d :
  (dNamespace (deleteTemplateLabel n d), dName (deleteTemplateLabel n d))
  = (dNamespace d, dName d).
Proof. done. Qed.

(** The labels the loop leaves on a pod template: the label [n] is gone,
    every other label is as it was. *)
Lemma strippedOf_labels n d k :
  tLabels (dsTemplate (dSpec (strippedOf n d))) !! k
  = if decide (k = n) then None else tLabels (dsTemplate (dSpec d)) !! k.
Proof.
  unfold strippedOf, hasKey. case_bool_decide as Hhas; simpl.
  - destruct (decide (k = n)) as [-> | Hne].
    + apply lookup_delete_eq.
    + by apply lookup_delete_ne.
  - destruct (decide (k = n)) as [-> | Hne]; [| done].
    by apply eq_None_not_Some.
Qed.

(** One iteration of the loop, on a deployment stored under its own key. *)
Lemma removeReferences_body E n k d st :
  wDeployments (world st) !! k = Some d →
  (dNamespace d, dName d) = k →
  apiFault E (CUpdate KDeployment k) = false →
  ∃ st1,
    (if hasKey (tLabels (dsTemplate (dSpec d))) n
     then bind (client_Update E deploymentStore (deleteTemplateLabel n d))
               (λ _, ret tt)
     else ret tt) st = (Val tt, st1) ∧
    wClusters (world st1) = wClusters (world st) ∧
    wServices (world st1) = wServices (world st) ∧
    wRoutes (world st1) = wRoutes (world st) ∧
    wDeployments (world st1) = <[k := strippedOf n d]> (wDeployments (world st)).
Proof.
  intros Hd Hk Hfault. unfold strippedOf.
  destruct (hasKey _ n).
  - unfold bind. rewrite client_Update_run. store_simpl. cbv zeta.
    rewrite deleteTemplateLabel_key, Hk, Hfault, Hd.
    eexists. split; [reflexivity |]. by simpl.
  - exists st. split; [done |]. split_and!; try done.
    by rewrite insert_id.
Qed.

Lemma removeReferences_loop E n
    (l : list (NamespacedName * Deployment StrMap)) st :
  NoDup l.*1 →
  (∀ k d, (k, d) ∈ l →
          wDeployments (world st) !! k = Some d ∧ (dNamespace d, dName d) = k) →
  (∀ k, apiFault E (CUpdate KDeployment k) = false) →
  ∃ st',
    forRange l.*2
      (λ deployment,
         if hasKey (tLabels (dsTemplate (dSpec deployment))) n
         then bind (client_Update E deploymentStore (deleteTemplateLabel n deployment))
                   (λ _, ret tt)
         else ret tt) st = (Val tt, st') ∧
    wClusters (world st') = wClusters (world st) ∧
    wServices (world st') = wServices (world st) ∧
    wRoutes (world st') = wRoutes (world st) ∧
    ∀ q, wDeployments (world st') !! q
         = (λ d, if bool_decide (q ∈ l.*1) then strippedOf n d else d)
             <$> wDeployments (world st) !! q.
Proof.
  intros Hnodup Hstored Hfault. revert st Hstored.
  induction l as [|[k d] l IH]; intros st Hstored.
  - exists st. split; [done |]. split_and!; try done.
    intros q. by destruct (wDeployments (world st) !! q).
  - apply NoDup_cons in Hnodup as [Hk Hnodup].
    destruct (Hstored k d) as [Hd Hkey]; [left |].
    destruct (removeReferences_body E n k d st Hd Hkey (Hfault k))
      as (st1 & Hrun & Hc1 & Hs1 & Hr1 & Hd1).
    destruct (IH Hnodup st1) as (st' & Hloop & Hc & Hs & Hr & Hq).
    { intros k2 d2 Hin. destruct (Hstored k2 d2) as [Hd2 Hkey2]; [by right |].
      split; [| done]. rewrite Hd1, lookup_insert_ne; [done |].
      intros ->. apply Hk. apply list_elem_of_fmap. by exists (k2, d2). }
    exists st'. split.
    { simpl. unfold bind at 1. rewrite Hrun. exact Hloop. }
    split_and!; [congruence | congruence | congruence |].
    intros q. rewrite Hq, Hd1. simpl.
    destruct (decide (q = k)) as [-> | Hne].
    + rewrite lookup_insert_eq, Hd. simpl.
      rewrite bool_decide_eq_false_2 by done.
      rewrite bool_decide_eq_true_2 by left. done.
    + rewrite lookup_insert_ne by done.
      destruct (wDeployments (world st) !! q); [| done]. simpl.
      rewrite (bool_decide_ext (q ∈ l.*1) (q ∈ k :: l.*1)); [done |].
      rewrite elem_of_cons. split; [by right | by intros [-> | ?]].
Qed.

Lemma wellKeyed_no_deployments w : wDeployments w = ∅ → wellKeyed w.
Proof. intros Hempty k d. by rewrite Hempty, lookup_empty. Qed.

Lemma wellKeyed_withWorkload d w :
  wellKeyed w → wellKeyed (Demo.withWorkload d w).
Proof.
  intros Hw k d'. unfold Demo.withWorkload. store_simpl. simpl.
  intros [[<- <-] | [_ Hd']]%lookup_insert_Some; [done | by apply Hw].
Qed.


